(** * rpcserver: job registry, category workers, output multiplexer, poll

    A shallow embedding of [src/rpcserver/__init__.py].  Every Python
    function that touches the shared job state is written as a computation
    in a state-and-exception monad over a [world] that holds the module's
    globals ([handlers], [queues], [handlerThreads], [outputThread]) and the
    heap of job-record dicts they point to.  A job record is a Python dict
    whose keys appear one after the other during the job's life, so each key
    is an optional field; reading a missing key raises [KeyError], as the
    subscription [handler['lock']] does in Python.

    The threads of the server interleave between the computations defined
    here.  A poll, a submit and one read of the multiplexer are one
    computation each.  The command runner is cut at its blocking call
    [p.wait()], and the worker's turn is cut where the handler is called and
    between each of the statements that follow the [try]: [run_begin],
    [run_call], [run_record], [run_complete], [run_duration].  Clock
    readings ([time.time()]) are integers handed to the computation that
    reads the clock. *)

From Stdlib Require Import ZArith List Lia.
From Stdlib.Strings Require Import String Ascii Byte.
From stdpp Require Import base option list gmap strings pretty.

Open Scope string_scope.
Open Scope list_scope.

(** ** Python values *)

(** A [bytes] object. *)
Definition bytes := list byte.

(** The file object of a pipe ([p.stdout]); objects are told apart by
    identity, which is what [idMap] hashes on.  The selector keys them by
    descriptor number instead: see [fileno]. *)
Definition stream := nat.

(** The address of a job-record dict. *)
Definition loc := nat.

(** Keys used in a failed lookup. *)
Inductive pykey :=
| KStr (s : string)
| KNone
| KStream (fd : stream).

(** The exceptions the server code can meet; all of them derive from
    Python's [Exception]. *)
Inductive exn :=
| Exception (msg : string)
| KeyError (key : pykey)
| UnicodeDecodeError (object : bytes)
| ValueError (fd : stream)
| HandlerError (cls msg : string).

(** ** UTF-8

    A Python [str] is represented by its UTF-8 encoding, held in a Rocq
    [string]; [bytes.decode("utf-8")] then checks that the bytes are
    well-formed UTF-8 (no overlong forms, no surrogates, nothing above
    U+10FFFF) and keeps them. *)

Definition is_cont (b : byte) : bool :=
  let c := Byte.to_N b in ((128 <=? c) && (c <=? 191))%N.

(** Second byte of a three-byte sequence led by [c0]. *)
Definition second_of3 (c0 : N) (b : byte) : bool :=
  let c := Byte.to_N b in
  (if c0 =? 224 then (160 <=? c) && (c <=? 191)
   else if c0 =? 237 then (128 <=? c) && (c <=? 159)
   else (128 <=? c) && (c <=? 191))%N.

(** Second byte of a four-byte sequence led by [c0]. *)
Definition second_of4 (c0 : N) (b : byte) : bool :=
  let c := Byte.to_N b in
  (if c0 =? 240 then (144 <=? c) && (c <=? 191)
   else if c0 =? 244 then (128 <=? c) && (c <=? 143)
   else (128 <=? c) && (c <=? 191))%N.

Fixpoint utf8_valid (bs : bytes) : bool :=
  match bs with
  | [] => true
  | b0 :: r0 =>
    let c0 := Byte.to_N b0 in
    if (c0 <? 128)%N then utf8_valid r0
    else if (c0 <? 194)%N then false
    else if (c0 <? 224)%N then
      match r0 with
      | b1 :: r1 => is_cont b1 && utf8_valid r1
      | _ => false
      end
    else if (c0 <? 240)%N then
      match r0 with
      | b1 :: b2 :: r2 => second_of3 c0 b1 && is_cont b2 && utf8_valid r2
      | _ => false
      end
    else if (c0 <? 245)%N then
      match r0 with
      | b1 :: b2 :: b3 :: r3 =>
        second_of4 c0 b1 && is_cont b2 && is_cont b3 && utf8_valid r3
      | _ => false
      end
    else false
  end.

(** [bs.decode("utf-8")] *)
Definition decode (bs : bytes) : option string :=
  if utf8_valid bs then Some (string_of_list_byte bs) else None.

(** [b"".join(chunks)] *)
Definition join_empty (chunks : list bytes) : bytes := concat chunks.

(** [b" ".join(chunks)] *)
Fixpoint join_space (chunks : list bytes) : bytes :=
  match chunks with
  | [] => []
  | [c] => c
  | c :: rest => c ++ x20 :: join_space rest
  end.

(** [" ".join(words)] on [str] *)
Fixpoint str_join (sep : string) (words : list string) : string :=
  match words with
  | [] => ""
  | [w] => w
  | w :: rest => w +:+ sep +:+ str_join sep rest
  end.

(** ** Job records *)

Inductive status_t := queued | in_progress | complete.

Definition status_name (s : status_t) : string :=
  match s with
  | queued => "queued"
  | in_progress => "in-progress"
  | complete => "complete"
  end.

Global Instance status_eq_dec : EqDecision status_t.
Proof. solve_decision. Defined.

(** The dict stored under [handlers[id_]].  [None] is a missing key.
    [lock] tells whether the key ['lock'] is there: the lock object itself
    is free between any two of the computations below, each of which holds
    it for a part of its own run only.  ['result'] may hold Python's [None],
    hence the nested option. *)
Record job := mk_job {
  status : option status_t;
  queueTime : option Z;
  lock : bool;
  processTime : option Z;
  data : option (list bytes);
  polldata : option (list bytes);
  results : option string;
  error : option string;
  result : option (option string);
  pipe : option stream
}.

(** [{}] *)
Definition empty_job : job :=
  mk_job None None false None None None None None None None.

Definition set_status v (r : job) :=
  mk_job v (queueTime r) (lock r) (processTime r) (data r) (polldata r)
         (results r) (error r) (result r) (pipe r).
Definition set_queueTime v (r : job) :=
  mk_job (status r) v (lock r) (processTime r) (data r) (polldata r)
         (results r) (error r) (result r) (pipe r).
Definition set_lock v (r : job) :=
  mk_job (status r) (queueTime r) v (processTime r) (data r) (polldata r)
         (results r) (error r) (result r) (pipe r).
Definition set_processTime v (r : job) :=
  mk_job (status r) (queueTime r) (lock r) v (data r) (polldata r)
         (results r) (error r) (result r) (pipe r).
Definition set_data v (r : job) :=
  mk_job (status r) (queueTime r) (lock r) (processTime r) v (polldata r)
         (results r) (error r) (result r) (pipe r).
Definition set_polldata v (r : job) :=
  mk_job (status r) (queueTime r) (lock r) (processTime r) (data r) v
         (results r) (error r) (result r) (pipe r).
Definition set_results v (r : job) :=
  mk_job (status r) (queueTime r) (lock r) (processTime r) (data r)
         (polldata r) v (error r) (result r) (pipe r).
Definition set_error v (r : job) :=
  mk_job (status r) (queueTime r) (lock r) (processTime r) (data r)
         (polldata r) (results r) v (result r) (pipe r).
Definition set_result v (r : job) :=
  mk_job (status r) (queueTime r) (lock r) (processTime r) (data r)
         (polldata r) (results r) (error r) v (pipe r).
Definition set_pipe v (r : job) :=
  mk_job (status r) (queueTime r) (lock r) (processTime r) (data r)
         (polldata r) (results r) (error r) (result r) v.

(** ** Queues and envelopes *)

(** A value of an operation's argument dict. *)
Inductive arg :=
| ANone
| ABool (b : bool)
| ANum (text : string)
| AStr (s : string)
| AList (l : list string)
| ADict (d : list (string * string)).

(** The dict put on a queue by [launch_thread]: keys ['method'], ['args'],
    ['id']. *)
Record envelope := mk_envelope {
  env_method : string;
  env_args : gmap string arg;
  env_id : string
}.

(** The keys of the module-level dict [queues]; the dict itself is never
    changed, only the [Queue] objects in it are. *)
Inductive category :=
| cpu_bound | internal_network_bound | external_network_bound | local.

Definition category_name (c : category) : string :=
  match c with
  | cpu_bound => "cpu-bound"
  | internal_network_bound => "internal-network-bound"
  | external_network_bound => "external-network-bound"
  | local => "local"
  end.

(** [queues.get(queueName, None)] *)
Definition queues_get (queueName : string) : option category :=
  if String.eqb queueName "cpu-bound" then Some cpu_bound
  else if String.eqb queueName "internal-network-bound"
       then Some internal_network_bound
  else if String.eqb queueName "external-network-bound"
       then Some external_network_bound
  else if String.eqb queueName "local" then Some local
  else None.

(** The contents of the four [Queue] objects, oldest envelope first. *)
Record queues_t := mk_queues {
  q_cpu : list envelope;
  q_internal : list envelope;
  q_external : list envelope;
  q_local : list envelope
}.

Definition queue_of (c : category) (q : queues_t) : list envelope :=
  match c with
  | cpu_bound => q_cpu q
  | internal_network_bound => q_internal q
  | external_network_bound => q_external q
  | local => q_local q
  end.

Definition set_queue (c : category) (v : list envelope) (q : queues_t) :=
  match c with
  | cpu_bound => mk_queues v (q_internal q) (q_external q) (q_local q)
  | internal_network_bound => mk_queues (q_cpu q) v (q_external q) (q_local q)
  | external_network_bound => mk_queues (q_cpu q) (q_internal q) v (q_local q)
  | local => mk_queues (q_cpu q) (q_internal q) (q_external q) v
  end.

(** [queueMap] *)
Definition queueMap : list (string * string) :=
  [ ("upload_inputs", "internal-network-bound");
    ("convert_inputs", "cpu-bound");
    ("download_proxies", "internal-network-bound");
    ("download_editables", "internal-network-bound");
    ("upload_edl", "local");
    ("upload_proxy_edl", "local");
    ("render_edl", "cpu-bound");
    ("upload_to_youtube", "external-network-bound");
    ("archive_to_s3", "external-network-bound");
    ("make_slideshow", "cpu-bound") ].

(** [d.get(key, default)] on a dict given by its items. *)
Fixpoint dict_get (d : list (string * string)) (key default : string)
  : string :=
  match d with
  | [] => default
  | (k, v) :: rest => if String.eqb k key then v else dict_get rest key default
  end.

(** ** The world *)

(** The [OutputThread] object: [idMap], the selector's registrations, and
    whether the thread is still running ([is_alive()]). *)
Record output_thread := mk_output_thread {
  idMap : gmap stream string;
  sel : gset stream;
  is_alive : bool
}.

(** The state of the process.  Besides the module's globals it holds what
    the operating system knows of the file objects: which are closed, and
    under which descriptor number each was opened.  A new pipe gets the
    lowest free number, which can be the number a closed pipe had; a file
    object is named by its number, and [filenos] lists the file objects
    that were opened under the number of an earlier one. *)
Record world := mk_world {
  heap : list job;
  handlers : gmap string loc;
  queues : queues_t;
  handlerThreads : gset string;
  outputThread : option output_thread;
  closed : gset stream;
  filenos : gmap stream nat
}.

Definition set_heap v (w : world) :=
  mk_world v (handlers w) (queues w) (handlerThreads w) (outputThread w)
           (closed w) (filenos w).
Definition set_handlers v (w : world) :=
  mk_world (heap w) v (queues w) (handlerThreads w) (outputThread w)
           (closed w) (filenos w).
Definition set_queues v (w : world) :=
  mk_world (heap w) (handlers w) v (handlerThreads w) (outputThread w)
           (closed w) (filenos w).
Definition set_handlerThreads v (w : world) :=
  mk_world (heap w) (handlers w) (queues w) v (outputThread w) (closed w)
           (filenos w).
Definition set_outputThread v (w : world) :=
  mk_world (heap w) (handlers w) (queues w) (handlerThreads w) v (closed w)
           (filenos w).
Definition set_closed v (w : world) :=
  mk_world (heap w) (handlers w) (queues w) (handlerThreads w)
           (outputThread w) v (filenos w).
Definition set_filenos v (w : world) :=
  mk_world (heap w) (handlers w) (queues w) (handlerThreads w)
           (outputThread w) (closed w) v.

(** The state of the module right after import. *)
Definition initial_world : world :=
  mk_world [] ∅ (mk_queues [] [] [] []) ∅ None ∅ ∅.

(** ** State and exceptions *)

Inductive outcome (A : Type) :=
| Returns (a : A)
| Raises (e : exn).
Arguments Returns {A} a.
Arguments Raises {A} e.

(** A Python computation: it ends by returning or by raising, and the state
    it has changed stays changed in both cases. *)
Definition M (A : Type) := world -> outcome A * world.

Definition ret {A} (a : A) : M A := fun w => (Returns a, w).
Definition raise {A} (e : exn) : M A := fun w => (Raises e, w).
Definition bind {A B} (m : M A) (k : A -> M B) : M B :=
  fun w => match m w with
           | (Returns a, w') => k a w'
           | (Raises e, w') => (Raises e, w')
           end.
(** [try: m except Exception as e: h e] *)
Definition try_except {A} (m : M A) (h : exn -> M A) : M A :=
  fun w => match m w with
           | (Returns a, w') => (Returns a, w')
           | (Raises e, w') => h e w'
           end.
Definition get_world : M world := fun w => (Returns w, w).
Definition modify (f : world -> world) : M unit := fun w => (Returns tt, f w).

Notation "'do' x <- m ; k" := (bind m (fun x => k))
  (at level 10, x name, m at level 100, k at level 200).
Notation "'call' m ; k" := (bind m (fun _ => k))
  (at level 10, m at level 100, k at level 200).

(** The dict at address [l]; an address nothing was stored at reads as
    [{}]. *)
Definition record_at (w : world) (l : loc) : job :=
  default empty_job (heap w !! l).

(** [handler[key]] for a key read through projection [proj]. *)
Definition getitem {A} (l : loc) (key : string) (proj : job -> option A)
  : M A :=
  fun w => match proj (record_at w l) with
           | Some v => (Returns v, w)
           | None => (Raises (KeyError (KStr key)), w)
           end.

(** [with handler['lock']:] — the subscription; the lock is free. *)
Definition getitem_lock (l : loc) : M unit :=
  fun w => if lock (record_at w l) then (Returns tt, w)
           else (Raises (KeyError (KStr "lock")), w).

(** [handler[key] = v], written as the setter applied to the record. *)
Definition setitem (l : loc) (f : job -> job) : M unit :=
  modify (fun w => set_heap (<[l := f (record_at w l)]> (heap w)) w).

(** A new dict object. *)
Definition new_dict (r : job) : M loc :=
  fun w => (Returns (length (heap w)), set_heap (heap w ++ [r]) w).

(** [x.decode("utf-8")] *)
Definition decode_utf8 (bs : bytes) : M string :=
  match decode bs with
  | Some s => ret s
  | None => raise (UnicodeDecodeError bs)
  end.

(** ** Poll *)

Record response := mk_response {
  r_status : status_t;
  r_result : string;
  r_queueDuration : Z;
  r_processDuration : Z
}.

(** [poll(id)], run in one go; [now] is what [time.time()] returns in it.
    [handler] is the address of the dict [handlers[id]]. *)
Definition poll (now : Z) (id : string) : M response :=
  do w <- get_world;
  match handlers w !! id with
  | None => raise (Exception ("No record of id " +:+ id))
  | Some handler =>
    do st <- getitem handler "status" status;
    call getitem_lock handler;
    do pd <- getitem handler "polldata" polldata;
    do d <- getitem handler "data" data;
    call setitem handler (set_polldata (Some (pd ++ [join_empty d])));
    call setitem handler (set_data (Some []));
    do pd' <- getitem handler "polldata" polldata;
    do res <- decode_utf8 (List.last pd' []);
    do qt <- getitem handler "queueTime" queueTime;
    do pt <- getitem handler "processTime" processTime;
    let result := mk_response st res qt (now - pt)%Z in
    if decide (st = complete) then
      do pd'' <- getitem handler "polldata" polldata;
      do full <- decode_utf8 (join_empty pd'');
      do pt' <- getitem handler "processTime" processTime;
      let result := mk_response st full qt pt' in
      call modify (fun w => set_handlers (delete id (handlers w)) w);
      do w' <- get_world;
      match error (record_at w' handler) with
      | Some msg => raise (Exception msg)
      | None => ret result
      end
    else ret result
  end.

(** ** Submit *)

(** The queue of an operation, as [launch_thread] finds it: the name
    [queueMap] gives, ["local"] by default, and the queue under that name in
    [queues], the local one when there is none. *)
Definition route (method : string) : string * category :=
  let queueName := dict_get queueMap method "local" in
  match queues_get queueName with
  | Some queue => (queueName, queue)
  | None => ("local", local)
  end.

(** The record [launch_thread] creates. *)
Definition queued_record (now : Z) : job :=
  set_queueTime (Some now) (set_status (Some queued) empty_job).

(** [launch_thread(method, args)].  [request_id] is [D.get('id', None)] of
    the request body, [now] is what [time.time()] returns.  The queues are
    unbounded, so [queue.put(data, block=False)] appends and never raises;
    a worker thread is recorded for the queue when none is. *)
Definition launch_thread (now : Z) (request_id : option string)
    (method : string) (args : gmap string arg) : M string :=
  match request_id with
  | None | Some "" => raise (Exception "No ID found, screw this")
  | Some id_ =>
    let data := mk_envelope method args id_ in
    let '(queueName, queue) := route method in
    do handler <- new_dict (queued_record now);
    call modify (fun w => set_handlers (<[id_ := handler]> (handlers w)) w);
    call modify (fun w =>
           set_queues (set_queue queue (queue_of queue (queues w) ++ [data])
                                 (queues w)) w);
    call modify (fun w =>
           if decide (queueName ∈ handlerThreads w) then w
           else set_handlerThreads ({[queueName]} ∪ handlerThreads w) w);
    ret ("Please poll with id " +:+ id_)
  end.

(** ** Output multiplexer *)

(** The [OutputThread] object the global names; calling a method on the
    global while it is still [None] is an [AttributeError]. *)
Definition the_outputThread : M output_thread :=
  do w <- get_world;
  match outputThread w with
  | Some ot => ret ot
  | None => raise (HandlerError "AttributeError"
                     "'NoneType' object has no attribute")
  end.

Definition set_idMap v (ot : output_thread) :=
  mk_output_thread v (sel ot) (is_alive ot).
Definition set_sel v (ot : output_thread) :=
  mk_output_thread (idMap ot) v (is_alive ot).
Definition set_is_alive v (ot : output_thread) :=
  mk_output_thread (idMap ot) (sel ot) v.

Definition update_outputThread (f : output_thread -> output_thread)
  : M unit :=
  modify (fun w => set_outputThread (f <$> outputThread w) w).

(** [fd.fileno()]: the descriptor number of a file object. *)
Definition fileno (w : world) (fd : stream) : nat :=
  default fd (filenos w !! fd).

(** The descriptor numbers the selector holds a key for: it keeps its keys
    in a dict by descriptor number, [sel] is the file objects of the
    keys. *)
Definition registered_numbers (w : world) (ot : output_thread) : gset nat :=
  set_map (fileno w) (sel ot).

(** [self.sel.register(fd, selectors.EVENT_READ, self.read)].  The selector
    finds the number of [fd], by [fileno()] or, for a closed file object,
    by searching its keys for the object; a number that has a key already
    is a [KeyError], be the key the one of [fd] or of another file object
    that had the number. *)
Definition sel_register (fd : stream) : M unit :=
  do ot <- the_outputThread;
  do w <- get_world;
  if decide (fd ∈ sel ot) then raise (KeyError (KStream fd))
  else if decide (fd ∈ closed w) then raise (ValueError fd)
  else if decide (fileno w fd ∈ registered_numbers w ot)
       then raise (KeyError (KStream fd))
  else update_outputThread (fun ot => set_sel ({[fd]} ∪ sel ot) ot).

(** [self.sel.unregister(fd)]: the key under the number of [fd] is taken
    out.  For a file object that is registered it is its own key; for an
    open one that is not, it is the key of the file object that had the
    number before, when there is one. *)
Definition sel_unregister (fd : stream) : M unit :=
  do ot <- the_outputThread;
  do w <- get_world;
  if decide (fd ∈ sel ot)
  then update_outputThread (fun ot => set_sel (sel ot ∖ {[fd]}) ot)
  else if decide (fd ∈ closed w) then raise (ValueError fd)
  else if decide (fileno w fd ∈ registered_numbers w ot)
       then update_outputThread
              (fun ot => set_sel (filter (fun f => fileno w f <> fileno w fd)
                                         (sel ot)) ot)
  else raise (KeyError (KStream fd)).

(** [fd.close()] *)
Definition close (fd : stream) : M unit :=
  modify (fun w => set_closed ({[fd]} ∪ closed w) w).

(** [self.handlers[id_]] *)
Definition handlers_getitem (id_ : option string) : M loc :=
  do w <- get_world;
  match id_ with
  | None => raise (KeyError KNone)
  | Some i =>
    match handlers w !! i with
    | Some l => ret l
    | None => raise (KeyError (KStr i))
    end
  end.

(** [OutputThread.add] *)
Definition add (id_ : string) : M unit :=
  call the_outputThread;
  do handler <- handlers_getitem (Some id_);
  do fd <- getitem handler "pipe" pipe;
  call update_outputThread (fun ot => set_idMap (<[fd := id_]> (idMap ot)) ot);
  try_except (sel_register fd)
    (fun e => match e with
              | KeyError _ => ret tt
              | _ => raise e
              end).

(** [OutputThread.remove] *)
Definition remove (fd : stream) : M unit :=
  do ot <- the_outputThread;
  call (if decide (fd ∈ dom (idMap ot))
        then update_outputThread (fun ot => set_idMap (delete fd (idMap ot)) ot)
        else raise (KeyError (KStream fd)));
  call sel_unregister fd;
  close fd.

(** [OutputThread.removeId] *)
Definition removeId (id_ : option string) : M unit :=
  do handler <- handlers_getitem id_;
  do fd <- getitem handler "pipe" pipe;
  remove fd.

Definition has {A} (o : option A) : bool :=
  match o with Some _ => true | None => false end.

(** Truth value of a dict: it has at least one key. *)
Definition dict_truthy (r : job) : bool :=
  has (status r) || has (queueTime r) || lock r
  || has (processTime r) || has (data r)
  || has (polldata r) || has (results r) || has (error r)
  || has (result r) || has (pipe r).

(** Truth value of a [str]. *)
Definition str_truthy (s : string) : bool :=
  match s with "" => false | _ => true end.

(** [OutputThread.read(fd, mask)]; [chunk] is what [fd.read(1024)] returns,
    empty at end of stream. *)
Definition read (fd : stream) (chunk : bytes) : M unit :=
  do w0 <- get_world;
  if decide (fd ∈ closed w0) then raise (ValueError fd) else
  do ot <- the_outputThread;
  let id_ := idMap ot !! fd in
  do w <- get_world;
  let handler := id_ ≫= (fun i => handlers w !! i) in
  match chunk, id_, handler with
  | _ :: _, Some i, Some h =>
    if str_truthy i && dict_truthy (record_at w h) then
      call getitem_lock h;
      do d <- getitem h "data" data;
      setitem h (set_data (Some (d ++ [chunk])))
    else removeId id_
  | _, _, _ => removeId id_
  end.

(** One turn of the loop of [OutputThread.run] for a ready stream: the
    callback is [read]; an exception it raises leaves [run], and the thread
    is dead from then on. *)
Definition OutputThread_run (fd : stream) (chunk : bytes) : M unit :=
  try_except (read fd chunk)
    (fun e => call update_outputThread (set_is_alive false); raise e).

(** ** Command runner *)

Definition newline : string := String (ascii_of_nat 10) "".

(** Truth value of an optional [str] ([None] is false). *)
Definition truthy (o : option string) : bool :=
  match o with Some s => str_truthy s | None => false end.

(** The failure message of [execCommand]. *)
Definition failure_message (command : list string) (retCode : Z)
    (output : option string) : string :=
  let message :=
    "Command: " +:+ str_join " " command +:+ " returned " +:+ pretty retCode in
  if truthy output
  then message +:+ newline +:+ newline +:+ "Output: " +:+ default "" output
  else message.

(** [execCommand], from its start to [p.wait()].  [popen] is what the
    [Popen(...)] call does: it returns the child's [stdout] pipe or raises
    (the program is missing, say).  The result is the record bound to
    [handler] and the pipe. *)
Definition execCommand_spawn (command : list string) (id_ : string)
    (popen : outcome stream) : M (loc * stream) :=
  do w <- get_world;
  call (match outputThread w with
        | Some ot =>
          if is_alive ot then ret tt
          else modify (set_outputThread (Some (mk_output_thread ∅ ∅ true)))
        | None => modify (set_outputThread (Some (mk_output_thread ∅ ∅ true)))
        end);
  do handler <- handlers_getitem (Some id_);
  match popen with
  | Raises e => raise e
  | Returns stdout =>
    try_except
      (call setitem handler (set_pipe (Some stdout));
       call add id_;
       ret (handler, stdout))
      (fun e => call close stdout; raise e)
  end.

(** [execCommand], from the return of [p.wait()] to its end; [retCode] is
    [p.returncode].  Leaving the [with Popen(...)] block closes
    [p.stdout]. *)
Definition execCommand_finish (command : list string) (handler : loc)
    (stdout : stream) (retCode : Z) : M unit :=
  call close stdout;
  do fd <- getitem handler "pipe" pipe;
  call close fd;
  call getitem_lock handler;
  do d <- getitem handler "data" data;
  do output <- match d with
               | [] => ret None
               | _ :: _ => do s <- decode_utf8 (join_space d); ret (Some s)
               end;
  if decide (retCode = 0%Z)
  then setitem handler (set_result (Some output))
  else raise (Exception (failure_message command retCode output)).

(** ** Category worker *)

(** [self.queue.get()] when an envelope is waiting; on an empty queue the
    worker stays blocked and nothing is returned. *)
Definition queue_get (c : category) : M (option envelope) :=
  do w <- get_world;
  match queue_of c (queues w) with
  | [] => ret None
  | item :: rest =>
    call modify (fun w => set_queues (set_queue c rest (queues w)) w);
    ret (Some item)
  end.

(** The methods [HandlerThread] defines itself. *)
Definition HandlerThread_methods : list string :=
  [ "run"; "execCommand"; "upload_inputs"; "convert_inputs";
    "download_proxies"; "download_editables"; "upload_edl";
    "upload_proxy_edl"; "render_edl"; "upload_to_youtube"; "archive_to_s3";
    "make_slideshow" ].

Section Worker.

(** The text [str(e)] gives for an exception the interpreter or a library
    raised itself ([KeyError], [UnicodeDecodeError], [ValueError]). *)
Variable builtin_str : exn -> string.

(** Whether a name is an attribute a [HandlerThread] has from
    [threading.Thread] or from its [__init__]. *)
Variable inherited : string -> bool.

(** What calling [methodFunc] with [args] does for an attribute of the
    thread: the handler bodies reach the file system and child processes,
    which are outside this development. *)
Variable methodFunc : string -> gmap string arg -> M (option string).

(** [str(e)] *)
Definition str (e : exn) : string :=
  match e with
  | Exception msg => msg
  | HandlerError _ msg => msg
  | _ => builtin_str e
  end.

(** [hasattr(self, method)] *)
Definition hasattr (method : string) : bool :=
  bool_decide (method ∈ HandlerThread_methods) || inherited method.

(** [run], lines from the test of [item] to [args['myId'] = id_]; [t1] and
    [t2] are the two readings of [time.time()].  [None] is [continue]. *)
Definition run_begin (t1 t2 : Z) (item : envelope)
  : M (option (loc * gmap string arg)) :=
  let id_ := env_id item in
  let method := env_method item in
  let args := env_args item in
  if negb (str_truthy id_) || negb (str_truthy method) then ret None else
  do w <- get_world;
  do data <- match handlers w !! id_ with
             | Some l => ret l
             | None =>
               do l <- new_dict empty_job;
               call modify (fun w =>
                      set_handlers (<[id_ := l]> (handlers w)) w);
               ret l
             end;
  call setitem data (set_lock true);
  call setitem data (set_status (Some in_progress));
  call setitem data (set_processTime (Some t1));
  do qt <- getitem data "queueTime" queueTime;
  call setitem data (set_queueTime (Some (t2 - qt)%Z));
  call setitem data (set_data (Some []));
  call setitem data (set_polldata (Some []));
  ret (Some (data, <["myId" := AStr id_]> args)).

(** The body of the [try]: the attribute test and the call. *)
Definition run_call (method : string) (args : gmap string arg)
  : M (option string) :=
  if negb (hasattr method)
  then raise (Exception ("No thread handler exists for method " +:+ method))
  else methodFunc method args.

(** What [run] does with the way the [try] body ended. *)
Definition run_record (data : loc) (o : outcome (option string)) : M unit :=
  match o with
  | Returns output =>
    if truthy output then setitem data (set_results output) else ret tt
  | Raises e => setitem data (set_error (Some (str e)))
  end.

(** [data['status'] = "complete"] *)
Definition run_complete (data : loc) : M unit :=
  setitem data (set_status (Some complete)).

(** [data['processTime'] = time.time() - data['processTime']] *)
Definition run_duration (t3 : Z) (data : loc) : M unit :=
  do pt <- getitem data "processTime" processTime;
  setitem data (set_processTime (Some (t3 - pt)%Z)).

(** [run] from the end of the [try] body to the end of the loop body. *)
Definition run_finish (t3 : Z) (data : loc) (o : outcome (option string))
  : M unit :=
  call run_record data o;
  call run_complete data;
  run_duration t3 data.

(** One turn of the loop of [run] on a dequeued envelope.  It returns when
    the loop goes on to its next [queue.get()], and raises when an
    exception leaves [run] and ends the thread. *)
Definition run_item (t1 t2 t3 : Z) (item : envelope) : M unit :=
  do started <- run_begin t1 t2 item;
  match started with
  | None => ret tt
  | Some (data, args) =>
    fun w =>
      let '(o, w') := run_call (env_method item) args w in
      run_finish t3 data o w'
  end.

(** The loop of [run] over the envelopes waiting on its queue, until the
    queue is empty and [queue.get()] blocks.  [times] gives the clock
    readings of each turn. *)
Fixpoint run (c : category) (times : list (Z * Z * Z)) : M nat :=
  match times with
  | [] => ret 0%nat
  | (t1, t2, t3) :: times' =>
    do next <- queue_get c;
    match next with
    | None => ret 0%nat
    | Some item =>
      call run_item t1 t2 t3 item;
      do n <- run c times';
      ret (S n)
    end
  end.

End Worker.

(** * Vocabulary of the properties, and example runs *)

(** The record a poll leaves behind: the chunks of [data] moved to
    [polldata] as one chunk, [data] empty. *)
Definition drained (r : job) (pd d : list bytes) : job :=
  set_data (Some []) (set_polldata (Some (pd ++ [join_empty d])) r).

(** A record the worker has started: every key [poll] reads is there. *)
Record started (w : world) (id : string) (l : loc) (r : job)
    (st : status_t) (pd d : list bytes) (qt pt : Z) : Prop := mk_started {
  started_handlers : handlers w !! id = Some l;
  started_heap : heap w !! l = Some r;
  started_status : status r = Some st;
  started_lock : lock r = true;
  started_polldata : polldata r = Some pd;
  started_data : data r = Some d;
  started_queueTime : queueTime r = Some qt;
  started_processTime : processTime r = Some pt
}.

(** What [poll] does on a started record, case by case. *)
Definition poll_started_result (w : world) (now : Z) (id : string) (l : loc)
    (r : job) (st : status_t) (pd d : list bytes) (qt pt : Z)
  : outcome response * world :=
  let w1 := set_heap (<[l := drained r pd d]> (heap w)) w in
  match decode (join_empty d) with
  | None => (Raises (UnicodeDecodeError (join_empty d)), w1)
  | Some res =>
    if decide (st = complete) then
      match decode (join_empty (pd ++ [join_empty d])) with
      | None =>
        (Raises (UnicodeDecodeError (join_empty (pd ++ [join_empty d]))), w1)
      | Some full =>
        let w2 := set_handlers (delete id (handlers w)) w1 in
        match error r with
        | Some msg => (Raises (Exception msg), w2)
        | None => (Returns (mk_response st full qt pt), w2)
        end
      end
    else (Returns (mk_response st res qt (now - pt)%Z), w1)
  end.

(** The outcomes of polling [id] at each of the times [nows], one poll after
    the other. *)
Fixpoint polls (id : string) (nows : list Z) (w : world)
  : list (outcome response) * world :=
  match nows with
  | [] => ([], w)
  | now :: rest =>
    let '(o, w1) := poll now id w in
    let '(os, w2) := polls id rest w1 in
    (o :: os, w2)
  end.

Definition unknown_identifier (id : string) : outcome response :=
  Raises (Exception ("No record of id " +:+ id)).

(** The state a terminal poll leaves: the record drained and taken out of the
    registry. *)
Definition after_terminal_poll (w : world) (id : string) (l : loc)
    (r : job) (pd d : list bytes) : world :=
  set_handlers (delete id (handlers w))
               (set_heap (<[l := drained r pd d]> (heap w)) w).

(** What the terminal poll hands to its caller. *)
Definition terminal_outcome (r : job) (full : string) (qt pt : Z)
  : outcome response :=
  match error r with
  | Some msg => Raises (Exception msg)
  | None => Returns (mk_response complete full qt pt)
  end.

Definition exec {A} (m : M A) (w : world) : world := snd (m w).
Definition outcome_of {A} (m : M A) (w : world) : outcome A := fst (m w).

Definition bytes_of (s : string) : bytes := list_byte_of_string s.

(** A client submits [archive_to_s3] under the id ["abc"] at time 100. *)
Definition w_submitted : world :=
  exec (launch_thread 100 (Some "abc") "archive_to_s3"
          {[ "project" := AStr "demo" ]}) initial_world.

(** The worker of the category takes the envelope at times 103 and 104. *)
Definition w_started : world :=
  exec (do item <- queue_get external_network_bound;
        match item with
        | Some item => run_begin 103 104 item
        | None => ret None
        end) w_submitted.

Definition archive_command : list string :=
  ["archive_to_s3.py"; "--project"; "demo"].

(** [execCommand] starts the child; its output pipe is stream 5. *)
Definition w_spawned : world :=
  exec (execCommand_spawn archive_command "abc" (Returns 5%nat)) w_started.

(** The multiplexer reads ["a"] from the pipe. *)
Definition w_output_a : world :=
  exec (OutputThread_run 5 (bytes_of "a")) w_spawned.

(** How a handler body that ends with its call of [execCommand] ends: it
    returns [None] when the call returns and raises what the call raises. *)
Definition handler_end (o : outcome unit) : outcome (option string) :=
  match o with
  | Returns _ => Returns None
  | Raises e => Raises e
  end.

(** A rendering of the exceptions the interpreter raises, to run examples:
    a [KeyError] shows the missing key between quotes. *)
Definition example_builtin_str (e : exn) : string :=
  match e with
  | KeyError (KStr k) => "'" +:+ k +:+ "'"
  | _ => ""
  end.

(** The child exits with code 2; [execCommand] raises, [run] records the
    failure and completes the job at time 120. *)
Definition w_failed : world :=
  exec (fun w =>
          let '(o, w') := execCommand_finish archive_command 0 5 2 w in
          run_finish example_builtin_str 120 0 (handler_end o) w')
       w_output_a.

(** The child exits with code 0 and the job completes at time 120. *)
Definition w_succeeded : world :=
  exec (fun w =>
          let '(o, w') := execCommand_finish archive_command 0 5 0 w in
          run_finish example_builtin_str 120 0 (handler_end o) w')
       w_output_a.

(** Whether a poll handed back a response with status complete. *)
Definition returns_complete (o : outcome response) : bool :=
  match o with
  | Returns res => bool_decide (r_status res = complete)
  | Raises _ => false
  end.

(** How many of the polls handed back status complete. *)
Definition count_complete (os : list (outcome response)) : nat :=
  length (List.filter returns_complete os).

(** The outcome of a poll on a job that is not complete, for the bytes [c]
    it drained. *)
Definition running_outcome (st : status_t) (c : bytes) (qt pt now : Z)
  : outcome response :=
  match decode c with
  | Some res => Returns (mk_response st res qt (now - pt)%Z)
  | None => Raises (UnicodeDecodeError c)
  end.

(** The multiplexer is attached to the job: [idMap] maps the pipe to the
    job's identifier and the pipe is open. *)
Record piped (w : world) (fd : stream) (id : string) : Prop := mk_piped {
  piped_thread : exists ot, outputThread w = Some ot /\ idMap ot !! fd = Some id;
  piped_open : fd ∉ closed w;
  piped_id : str_truthy id = true
}.

(** What happens to a running job while its command runs: the multiplexer
    reads a non-empty chunk [c0 :: cs] from the pipe, or a client polls. *)
Inductive event :=
| Output (c0 : byte) (cs : bytes)
| Poll (now : Z).

Fixpoint play (id : string) (fd : stream) (evs : list event) (w : world)
  : list (outcome response) * world :=
  match evs with
  | [] => ([], w)
  | Output c0 cs :: rest =>
    play id fd rest (exec (OutputThread_run fd (c0 :: cs)) w)
  | Poll now :: rest =>
    let '(o, w1) := poll now id w in
    let '(os, w2) := play id fd rest w1 in
    (o :: os, w2)
  end.

(** The bytes the command wrote, in order. *)
Fixpoint produced (evs : list event) : bytes :=
  match evs with
  | [] => []
  | Output c0 cs :: rest => (c0 :: cs) ++ produced rest
  | Poll _ :: rest => produced rest
  end.

(** The [result] values of the polls that returned, joined in order. *)
Fixpoint returned_text (os : list (outcome response)) : string :=
  match os with
  | [] => ""
  | Returns res :: rest => r_result res +:+ returned_text rest
  | Raises _ :: rest => returned_text rest
  end.

Definition is_returned {A} (o : outcome A) : bool :=
  match o with Returns _ => true | Raises _ => false end.

(** The record after [run] has noted how the handler ended. *)
Definition recorded (builtin_str : exn -> string) (r : job)
    (o : outcome (option string)) : job :=
  match o with
  | Returns output => if truthy output then set_results output r else r
  | Raises e => set_error (Some (str builtin_str e)) r
  end.

(** The record at the end of the turn. *)
Definition finished (builtin_str : exn -> string) (t3 : Z) (r : job) (pt : Z)
    (o : outcome (option string)) : job :=
  set_processTime (Some (t3 - pt)%Z)
    (set_status (Some complete) (recorded builtin_str r o)).

(** The world after a submit that was accepted. *)
Definition submitted (now : Z) (id_ method : string) (args : gmap string arg)
    (w : world) : world :=
  let '(queueName, queue) := route method in
  mk_world (heap w ++ [queued_record now])
           (<[id_ := length (heap w)]> (handlers w))
           (set_queue queue
              (queue_of queue (queues w) ++ [mk_envelope method args id_])
              (queues w))
           (if decide (queueName ∈ handlerThreads w) then handlerThreads w
            else {[queueName]} ∪ handlerThreads w)
           (outputThread w) (closed w) (filenos w).

(** Unfolds the plumbing of the monad and the accessors of the state. *)
Ltac unfold_py :=
  cbv beta iota zeta delta
    [bind ret raise get_world modify try_except getitem getitem_lock setitem
     new_dict decode_utf8 the_outputThread update_outputThread
     handlers_getitem close];
  cbn [heap handlers queues handlerThreads outputThread closed filenos
       set_heap set_handlers set_queues set_handlerThreads set_outputThread
       set_closed set_filenos idMap sel is_alive set_idMap set_sel
       set_is_alive fmap option_fmap option_map].

(** Runs [rw], a rewriting with what is known of the state, as long as it
    makes the computation advance. *)
Ltac py_run rw := repeat (progress (unfold_py; rw)).

(** What [execCommand] takes as the captured output: nothing when [data] is
    empty, else the chunks of [data] joined with a space and decoded. *)
Definition captured (d : list bytes) : outcome (option string) :=
  match d with
  | [] => Returns None
  | _ :: _ =>
    match decode (join_space d) with
    | Some s => Returns (Some s)
    | None => Raises (UnicodeDecodeError (join_space d))
    end
  end.

(** The command of job ["abc"] writes the two chunks [c1] and [c2], exits
    with code 0, and the worker completes the job at time 120. *)
Definition w_two_chunks (builtin_str : exn -> string) (c1 c2 : bytes)
  : world :=
  exec (fun w =>
          let '(o, w') := execCommand_finish archive_command 0 5 0 w in
          run_finish builtin_str 120 0 (handler_end o) w')
       (exec (call OutputThread_run 5 c1; OutputThread_run 5 c2) w_spawned).

(** The keys a record can have. *)
Inductive key :=
| K_status | K_queueTime | K_lock | K_processTime | K_data | K_polldata
| K_results | K_error | K_result | K_pipe.

(** [k in r] *)
Definition has_key (k : key) (r : job) : bool :=
  match k with
  | K_status => has (status r)
  | K_queueTime => has (queueTime r)
  | K_lock => lock r
  | K_processTime => has (processTime r)
  | K_data => has (data r)
  | K_polldata => has (polldata r)
  | K_results => has (results r)
  | K_error => has (error r)
  | K_result => has (result r)
  | K_pipe => has (pipe r)
  end.

(** No key of [r] is missing from [r']: nothing in the server takes a key
    out of a record. *)
Definition keys_kept (r r' : job) : Prop :=
  forall k, has_key k r = true -> has_key k r' = true.

(** From [w] to [w'] the registry is the same and every record is still
    there with at least the keys it had. *)
Definition records_kept (w w' : world) : Prop :=
  handlers w' = handlers w
  /\ forall l r, heap w !! l = Some r ->
                 exists r', heap w' !! l = Some r' /\ keys_kept r r'.

(** A handler body that leaves the queues and the registry alone and takes
    no key out of a record. *)
Definition well_behaved
    (methodFunc : string -> gmap string arg -> M (option string)) : Prop :=
  forall method args w,
    records_kept w (exec (methodFunc method args) w)
    /\ queues (exec (methodFunc method args) w) = queues w.

(** An envelope whose job was submitted and is still registered. *)
Definition waiting (w : world) (item : envelope) (l : loc) : Prop :=
  str_truthy (env_id item) = true
  /\ str_truthy (env_method item) = true
  /\ handlers w !! env_id item = Some l
  /\ exists r, heap w !! l = Some r /\ has_key K_queueTime r = true.

(** The record after [run] has started the job. *)
Definition begun (t1 t2 qt : Z) (r : job) : job :=
  set_polldata (Some [])
    (set_data (Some [])
       (set_queueTime (Some (t2 - qt)%Z)
          (set_processTime (Some t1)
             (set_status (Some in_progress) (set_lock true r))))).

(** A handler body that fails at once: the program is not installed. *)
Definition missing_program : string -> gmap string arg -> M (option string) :=
  fun _ _ =>
    raise (HandlerError "FileNotFoundError"
             "[Errno 2] No such file or directory: 'archive_to_s3.py'").

(** Two jobs of the same category are waiting. *)
Definition w_two_waiting : world :=
  exec (call launch_thread 100 (Some "abc") "archive_to_s3" ∅;
        launch_thread 101 (Some "xyz") "upload_to_youtube" ∅) initial_world.

(** The worker has run [data['status'] = "complete"] and has not yet run the
    next statement, which turns [processTime] into a duration. *)
Definition w_between : world :=
  exec (fun w =>
          let '(o, w') := execCommand_finish archive_command 0 5 0 w in
          (call run_record example_builtin_str 0 (handler_end o);
           run_complete 0) w') w_output_a.

(** The identifier ["abc"] is submitted twice in a row, then the identifier
    ["xyz"]; the worker runs the first envelope, a client's poll takes
    delivery of the record of ["abc"], and the worker comes to the second
    envelope, with the one of ["xyz"] behind it. *)
Definition w_delivered_twice_queued : world :=
  exec (call launch_thread 100 (Some "abc") "archive_to_s3" ∅;
        call launch_thread 101 (Some "abc") "archive_to_s3" ∅;
        call launch_thread 102 (Some "xyz") "upload_to_youtube" ∅;
        call run example_builtin_str (fun _ => false) missing_program
               external_network_bound [(103, 104, 120)%Z];
        try_except (call poll 130 "abc"; ret tt) (fun _ => ret tt))
       initial_world.

(** * The rest of the server: caller's address, endpoints, handlers *)

(** ** Resolving the caller's address *)

(** The two-character text made of two double quotes. *)
Definition two_quotes : string :=
  String (ascii_of_nat 34) (String (ascii_of_nat 34) "").

(** [get_remote_ip(remoteIP)]; [header] is
    [request.environ.get("HTTP_X_REAL_IP", None)]. *)
Definition get_remote_ip (header remoteIP : option string) : string :=
  let remoteIP :=
    if negb (truthy remoteIP) || bool_decide (remoteIP = Some two_quotes)
    then header else remoteIP in
  match remoteIP with
  | None => "127.0.0.1"
  | Some ip =>
    if negb (str_truthy ip) || String.eqb ip "localhost" then "127.0.0.1"
    else ip
  end.

(** ** The JSON-RPC endpoints

    Each endpoint reads the clock and the request through [launch_thread];
    [now], [request_id] and [header] are what it finds there.  A number of
    the request is kept as its text. *)

Definition local_request : string := "This is a local request, nothing to do".

(** An optional [str] argument as a value of the argument dict. *)
Definition arg_of_option (o : option string) : arg :=
  match o with Some s => AStr s | None => ANone end.

Module App.

Definition upload_inputs (now : Z) (request_id header : option string)
    (project : string) (remoteIP : option string) (force : bool) : M string :=
  let remoteIP := get_remote_ip header remoteIP in
  if String.eqb remoteIP "127.0.0.1" then ret local_request
  else launch_thread now request_id "upload_inputs"
         {[ "project" := AStr project; "remoteIP" := AStr remoteIP;
            "force" := ABool force ]}.

Definition convert_inputs (now : Z) (request_id : option string)
    (project : string) (files : option (list string)) (factor : string)
  : M string :=
  launch_thread now request_id "convert_inputs"
    {[ "project" := AStr project;
       "files" := match files with Some l => AList l | None => ANone end;
       "factor" := ANum factor ]}.

Definition download_editables (now : Z) (request_id header : option string)
    (project : string) (remoteIP : option string) (force : bool) : M string :=
  let remoteIP := get_remote_ip header remoteIP in
  if String.eqb remoteIP "127.0.0.1" then ret local_request
  else launch_thread now request_id "download_editables"
         {[ "project" := AStr project; "remoteIP" := AStr remoteIP;
            "force" := ABool force ]}.

Definition download_proxies (now : Z) (request_id header : option string)
    (project : string) (remoteIP : option string) (force : bool) : M string :=
  let remoteIP := get_remote_ip header remoteIP in
  if String.eqb remoteIP "127.0.0.1" then ret local_request
  else launch_thread now request_id "download_proxies"
         {[ "project" := AStr project; "remoteIP" := AStr remoteIP;
            "force" := ABool force ]}.

Definition upload_edl (now : Z) (request_id header : option string)
    (project edlfile : string) (remoteIP : option string) : M string :=
  let remoteIP := get_remote_ip header remoteIP in
  if String.eqb remoteIP "127.0.0.1" then ret local_request
  else launch_thread now request_id "upload_edl"
         {[ "project" := AStr project; "edlfile" := AStr edlfile;
            "remoteIP" := AStr remoteIP ]}.

Definition upload_proxy_edl (now : Z) (request_id header : option string)
    (project edlfile : string) (remoteIP : option string) : M string :=
  let remoteIP := get_remote_ip header remoteIP in
  if String.eqb remoteIP "127.0.0.1" then ret local_request
  else launch_thread now request_id "upload_proxy_edl"
         {[ "project" := AStr project; "edlfile" := AStr edlfile;
            "remoteIP" := AStr remoteIP ]}.

Definition render_edl (now : Z) (request_id : option string)
    (project edlfile outfile : string) (proxy : bool) (mode : string)
  : M string :=
  launch_thread now request_id "render_edl"
    {[ "project" := AStr project; "edlfile" := AStr edlfile;
       "outfile" := AStr outfile; "proxy" := ABool proxy;
       "mode" := AStr mode ]}.

Definition upload_to_youtube (now : Z) (request_id : option string)
    (project outfile title description : string) (category : Z)
    (keywords : string) : M string :=
  launch_thread now request_id "upload_to_youtube"
    {[ "project" := AStr project; "outfile" := AStr outfile;
       "params" := ADict [ ("title", title); ("description", description);
                           ("category", pretty category);
                           ("keywords", keywords) ] ]}.

Definition archive_to_s3 (now : Z) (request_id : option string)
    (project : string) (skip inputs delete accelerate : bool) : M string :=
  launch_thread now request_id "archive_to_s3"
    {[ "project" := AStr project; "skip" := ABool skip;
       "inputs" := ABool inputs; "delete" := ABool delete;
       "accelerate" := ABool accelerate ]}.

Definition make_slideshow (now : Z) (request_id : option string)
    (project duration outfile : string) (files : list string) : M string :=
  launch_thread now request_id "make_slideshow"
    {[ "project" := AStr project; "duration" := ANum duration;
       "outfile" := AStr outfile; "files" := AList files ]}.

End App.

(** [m] returns the advisory message for [id_] and leaves exactly one new
    envelope, made of [method], [args] and [id_], at the tail of the queue
    of category [c]; the other queues are as they were. *)
Definition queues_one (m : M string) (w : world) (id_ method : string)
    (args : gmap string arg) (c : category) : Prop :=
  outcome_of m w = Returns ("Please poll with id " +:+ id_)
  /\ queue_of c (queues (exec m w))
     = queue_of c (queues w) ++ [mk_envelope method args id_]
  /\ forall c', c' <> c -> queue_of c' (queues (exec m w)) = queue_of c' (queues w).

(** ** Several submits, several [queue.get()] *)

(** A submit: the clock reading, the identifier, the operation and its
    arguments. *)
Record request := mk_request {
  req_now : Z;
  req_id : string;
  req_method : string;
  req_args : gmap string arg
}.

Definition envelope_of (r : request) : envelope :=
  mk_envelope (req_method r) (req_args r) (req_id r).

(** The submits of [reqs], one after the other; the first that raises ends
    the run. *)
Fixpoint launch_all (reqs : list request) : M unit :=
  match reqs with
  | [] => ret tt
  | r :: rest =>
    call launch_thread (req_now r) (Some (req_id r)) (req_method r)
           (req_args r);
    launch_all rest
  end.

(** Up to [n] calls of [queue.get()] on the queue of [c], until the queue
    is empty: the envelopes in the order the worker receives them. *)
Fixpoint take_envelopes (c : category) (n : nat) : M (list envelope) :=
  match n with
  | O => ret []
  | S n' =>
    do item <- queue_get c;
    match item with
    | None => ret []
    | Some item => do rest <- take_envelopes c n'; ret (item :: rest)
    end
  end.

(** ** What a computation leaves alone *)

(** From [w] to [w'] nothing has changed but, at most, the record at [l]
    and the registry entry of [id]. *)
Definition touches_only (l : option loc) (id : string) (w w' : world)
  : Prop :=
  queues w' = queues w
  /\ handlerThreads w' = handlerThreads w
  /\ outputThread w' = outputThread w
  /\ closed w' = closed w
  /\ length (heap w') = length (heap w)
  /\ (forall id', id' <> id -> handlers w' !! id' = handlers w !! id')
  /\ (forall l', Some l' <> l -> record_at w' l' = record_at w l').

(** [m] keeps the relation [P] between the state it starts in and the state
    it ends in, whether it returns or raises. *)
Definition keeps {A} (P : world -> world -> Prop) (m : M A) : Prop :=
  forall w, P w (snd (m w)).

(** The command of job ["abc"] writes the single byte FF, which no UTF-8
    text holds, and exits with code 0; the worker completes the job. *)
Definition w_binary : world :=
  exec (fun w =>
          let '(o, w') := execCommand_finish archive_command 0 5 0 w in
          run_finish example_builtin_str 120 0 (handler_end o) w')
       (exec (OutputThread_run 5 [xff]%byte) w_spawned).

(** Whether a poll ended with [UnicodeDecodeError]. *)
Definition is_decode_error (o : outcome response) : bool :=
  match o with
  | Raises (UnicodeDecodeError _) => true
  | _ => false
  end.

(** ** The multiplexer's table after a tear-down *)

(** The [OutputThread] object once [remove(fd)] has run. *)
Definition without_stream (fd : stream) (ot : output_thread)
  : output_thread :=
  set_sel (sel ot ∖ {[fd]}) (set_idMap (delete fd (idMap ot)) ot).

(** A second job under the identifier ["abc"] starts a command, with output
    pipe 6, while the first command of ["abc"] is still attached. *)
Definition w_two_pipes : world :=
  exec (execCommand_spawn archive_command "abc" (Returns 6%nat)) w_spawned.

(** The multiplexer thread has died on a read it could not place while the
    command of job ["abc"] runs. *)
Definition w_multiplexer_dead : world :=
  exec (try_except (OutputThread_run 9 (bytes_of "x")) (fun _ => ret tt))
       w_spawned.

(** The command of job ["abc"] has ended and [execCommand] has closed its
    pipe, stream 5, which the selector still holds; the job starts another
    command, and the operating system gives the new pipe, file object 6,
    the descriptor number 5, which is free again. *)
Definition w_descriptor_reused : world :=
  exec (modify (fun w => set_filenos (<[6%nat := 5%nat]> (filenos w)) w))
       (exec (execCommand_finish archive_command 0 5 0) w_spawned).

(** Decides a closed, decidable proposition by evaluating its decision. *)
Ltac by_compute := refine (bool_decide_unpack _ _); vm_compute; exact I.

(** From [w] to [w'] no stream was reopened, the multiplexer's tables, the
    registry and the queues are the same, and every record has the status,
    the error and the buffered output it had. *)
Definition streams_grow (w w' : world) : Prop :=
  outputThread w' = outputThread w
  /\ closed w ⊆ closed w'
  /\ handlers w' = handlers w
  /\ queues w' = queues w
  /\ forall l, data (record_at w' l) = data (record_at w l)
               /\ polldata (record_at w' l) = polldata (record_at w l)
               /\ status (record_at w' l) = status (record_at w l)
               /\ error (record_at w' l) = error (record_at w l).

(** The identifier ["abc"] is submitted twice before the worker comes to it;
    the worker has run the first envelope, whose program is missing, and no
    client has polled. *)
Definition w_first_of_two_failed : world :=
  exec (call launch_thread 100 (Some "abc") "archive_to_s3" ∅;
        call launch_thread 101 (Some "abc") "archive_to_s3" ∅;
        run example_builtin_str (fun _ => false) missing_program
            external_network_bound [(103, 104, 120)%Z])
       initial_world.

(** ** The parameters of the handlers *)

(** The parameters, after [self], of the ten methods of [HandlerThread]
    that [queueMap] names: those without a default, then those with one. *)
Definition handler_parameters : list (string * (list string * list string)) :=
  [ ("upload_inputs", (["myId"; "project"], ["remoteIP"; "force"]));
    ("convert_inputs", (["myId"; "project"], ["files"; "factor"]));
    ("download_proxies", (["myId"; "project"], ["remoteIP"; "force"]));
    ("download_editables", (["myId"; "project"], ["remoteIP"; "force"]));
    ("upload_edl", (["myId"; "project"], ["edlfile"; "remoteIP"]));
    ("upload_proxy_edl", (["myId"; "project"], ["edlfile"; "remoteIP"]));
    ("render_edl",
     (["myId"; "project"], ["edlfile"; "outfile"; "proxy"; "mode"]));
    ("upload_to_youtube", (["myId"; "project"], ["outfile"; "params"]));
    ("archive_to_s3",
     (["myId"; "project"], ["skip"; "inputs"; "delete"; "accelerate"]));
    ("make_slideshow",
     (["myId"; "project"; "files"], ["duration"; "outfile"])) ].

Fixpoint lookup_item {A} (k : string) (d : list (string * A)) : option A :=
  match d with
  | [] => None
  | (k', v) :: rest => if String.eqb k k' then Some v else lookup_item k rest
  end.

(** Whether a call of a function with the parameters [sig] binds keyword
    arguments of the names [keys]: every name is a parameter, and every
    parameter without a default is among the names.  A call that does not
    bind raises [TypeError]. *)
Definition binds (sig : list string * list string) (keys : gset string)
  : bool :=
  forallb (fun p => bool_decide (p ∈ keys)) (fst sig)
  && bool_decide (keys ⊆ list_to_set (fst sig ++ snd sig)).

(** The call of [methodFunc] with the keyword arguments [args] that [run]
    makes for an envelope, after [args['myId'] = id_], binds. *)
Definition bindable_item (item : envelope) : bool :=
  match lookup_item (env_method item) handler_parameters with
  | Some sig =>
    binds sig (dom (<["myId" := AStr (env_id item)]> (env_args item)))
  | None => false
  end.

Definition all_envelopes (q : queues_t) : list envelope :=
  q_cpu q ++ q_internal q ++ q_external q ++ q_local q.

(** Every envelope waiting on a queue binds to its handler. *)
Definition bindable (w : world) : Prop :=
  Forall (fun item => bindable_item item = true) (all_envelopes (queues w)).

(** ** The commands of the handlers *)

(** [b.startswith("/")] *)
Definition startswith_sep (b : string) : bool :=
  match b with
  | String c _ => Ascii.eqb c "/"
  | EmptyString => false
  end.

(** [path.endswith("/")] *)
Fixpoint endswith_sep (path : string) : bool :=
  match path with
  | EmptyString => false
  | String c EmptyString => Ascii.eqb c "/"
  | String _ rest => endswith_sep rest
  end.

(** One turn of the loop of [posixpath.join]. *)
Definition join_component (path b : string) : string :=
  if startswith_sep b then b
  else if negb (str_truthy path) || endswith_sep path then path +:+ b
  else path +:+ "/" +:+ b.

(** [os.path.join(a, *p)] on a POSIX host. *)
Definition os_path_join (a : string) (p : list string) : string :=
  fold_left join_component p a.

(** [l.insert(i, x)] for an index within the list. *)
Definition list_insert_at {A} (i : nat) (x : A) (l : list A) : list A :=
  take i l ++ x :: drop i l.

(** The text [%s] gives for an address: the address, or [None]. *)
Definition percent_s (o : option string) : string := default "None" o.

(** The command each of the five rsync handlers hands to [execCommand].
    Creating the directories is left out: it does not enter the command. *)
Module Handler.

Definition video : string := "/opt/video/render/video".

Definition upload_inputs (project : string) (remoteIP : option string)
    (force : bool) : list string :=
  let path := os_path_join video [project; "input"; ""] in
  let command :=
    ["rsync"; "-avt"; percent_s remoteIP +:+ ":" +:+ path; path] in
  if force then list_insert_at 2 "--delete" command else command.

Definition download_proxies (project : string) (remoteIP : option string)
    (force : bool) : list string :=
  let path := os_path_join video [project; "proxy"; ""] in
  let command :=
    ["rsync"; "-avt"; path; percent_s remoteIP +:+ ":" +:+ path] in
  if force then list_insert_at 2 "--delete" command else command.

Definition download_editables (project : string) (remoteIP : option string)
    (force : bool) : list string :=
  let path := os_path_join video [project; "edit"; ""] in
  let command :=
    ["rsync"; "-avt"; path; percent_s remoteIP +:+ ":" +:+ path] in
  if force then list_insert_at 2 "--delete" command else command.

Definition upload_edl (project edlfile : string) (remoteIP : option string)
  : list string :=
  let path := os_path_join video [project; "edit"; edlfile] in
  ["rsync"; "-avt"; percent_s remoteIP +:+ ":" +:+ path; path].

Definition upload_proxy_edl (project edlfile : string)
    (remoteIP : option string) : list string :=
  let path := os_path_join video [project; "proxy"; edlfile] in
  ["rsync"; "-avt"; percent_s remoteIP +:+ ":" +:+ path; path].

End Handler.

(** The text a path of the video tree starts with: the root and a slash,
    or nothing when the project begins with a slash, for then
    [os.path.join] starts over at the project. *)
Definition video_root (project : string) : string :=
  if startswith_sep project then "" else "/opt/video/render/video/".

(** The slash [os.path.join] puts after the project: none when the project
    is empty or ends with one. *)
Definition slash_after (project : string) : string :=
  if negb (str_truthy project) || endswith_sep project then "" else "/".

(** ** The parameters of the endpoints *)

(** The parameters of the ten functions registered as JSON-RPC methods:
    those without a default, then those with one. *)
Definition endpoint_parameters : list (string * (list string * list string)) :=
  [ ("upload_inputs", (["project"], ["remoteIP"; "force"]));
    ("convert_inputs", (["project"], ["files"; "factor"]));
    ("download_editables", (["project"], ["remoteIP"; "force"]));
    ("download_proxies", (["project"], ["remoteIP"; "force"]));
    ("upload_edl", (["project"], ["edlfile"; "remoteIP"]));
    ("upload_proxy_edl", (["project"], ["edlfile"; "remoteIP"]));
    ("render_edl", (["project"], ["edlfile"; "outfile"; "proxy"; "mode"]));
    ("upload_to_youtube",
     (["project"],
      ["outfile"; "title"; "description"; "category"; "keywords"]));
    ("archive_to_s3",
     (["project"; "skip"; "inputs"; "delete"; "accelerate"], []));
    ("make_slideshow", (["project"; "duration"; "outfile"; "files"], [])) ].

(** * The client, rpcclient.py *)

Module Client.

Inductive action := store_true | store | append.

(** The keyword arguments of one [add_argument] call; [kw_default] and
    [kw_type] hold the source text of the value. *)
Record kwargs := mk_kwargs {
  kw_action : action;
  kw_dest : option string;
  kw_required : bool;
  kw_default : option string;
  kw_type : option string;
  kw_help : string
}.

(** An entry of an ["arguments"] list: the option strings and keyword
    arguments of an option, or the inclusion of another entry of
    [parameters]. *)
Inductive argument :=
| Opt (args : list string) (kw : kwargs)
| Include (name : string).

Record service := mk_service {
  description : option string;
  params : option (list string);
  arguments : list argument
}.

(** [parameters] *)
Definition parameters : list (string * service) :=
  [ ("common",
     mk_service None None
       [ Opt ["--debug"; "-d"]
             (mk_kwargs store_true None false None None "Use debug mode");
         Opt ["--project"; "-p"]
             (mk_kwargs store None true None None "Video project to upload");
         Opt ["--serverIP"; "-i"]
             (mk_kwargs store None true None None "Specify the server's IP");
         Opt ["--remoteIP"; "-I"]
             (mk_kwargs store None false (Some EmptyString) None
                        "Override the client IP") ]);
    ("upload_inputs",
     mk_service (Some "Upload input video files to server for processing")
       (Some ["project"; "remoteIP"; "force"])
       [ Opt ["--force"; "-f"]
             (mk_kwargs store_true None false None None
                        "Force deletion of old files on target") ]);
    ("convert_inputs",
     mk_service (Some "Convert videos to editable and proxy versions")
       (Some ["project"; "files"; "factor"])
       [ Opt ["--file"; "-f"]
             (mk_kwargs append (Some "files") false None None
                        "Choose specific files to run (one per --file)");
         Opt ["--factor"; "-F"]
             (mk_kwargs store None false (Some "0.5") (Some "float")
                "Set the shrink factor for proxy files (default %(default)s)")
       ]);
    ("download_proxies",
     mk_service (Some "Download proxy video files from server for editing")
       (Some ["project"; "remoteIP"; "force"])
       [ Include "upload_inputs" ]);
    ("upload_proxy_edl",
     mk_service (Some "Upload the proxy EDL to the server")
       (Some ["project"; "remoteIP"; "edlfile"])
       [ Opt ["--edlfile"; "-e"]
             (mk_kwargs store None true None None "The EDL File to send") ]);
    ("render_edl",
     mk_service (Some "Render the EDL file on the server")
       (Some ["project"; "outfile"; "edlfile"])
       [ Include "upload_proxy_edl";
         Opt ["--outfile"; "-o"]
             (mk_kwargs store None true None None "Set the output filename")
       ]) ].

(** An option a parser knows: its option strings, its [dest], and whether
    [parse_args] sets [dest] in the namespace (the help option does not). *)
Record parser_action := mk_parser_action {
  option_strings : list string;
  dest : string;
  in_namespace : bool
}.

Definition parser := list parser_action.

(** [argparse.ArgumentParser(...)]: the parser knows [-h] and [--help]. *)
Definition ArgumentParser : parser :=
  [ mk_parser_action ["-h"; "--help"] "help" false ].

Inductive failure :=
| ArgumentError (option_string : string)
| ValueError_dest
| AttributeError (name : string)
| RecursionError.

(** [s.lstrip("-")] *)
Fixpoint lstrip_dash (s : string) : string :=
  match s with
  | String c rest => if Ascii.eqb c "-" then lstrip_dash rest else s
  | EmptyString => s
  end.

(** [s.replace("-", "_")] *)
Fixpoint replace_dash (s : string) : string :=
  match s with
  | String c rest =>
    String (if Ascii.eqb c "-" then "_"%char else c) (replace_dash rest)
  | EmptyString => s
  end.

(** Whether an option string is a long one: its second character is a
    dash. *)
Definition is_long (s : string) : bool :=
  match s with
  | String _ (String c _) => Ascii.eqb c "-"
  | _ => false
  end.

(** The [dest] argparse gives an option: the keyword [dest], else the first
    long option string, else the first option string, without its leading
    dashes and with underscores for the dashes left. *)
Definition dest_of (args : list string) (kw : kwargs) : failure + string :=
  match kw_dest kw with
  | Some d => inr d
  | None =>
    let dest_option_string :=
      match List.filter is_long args with
      | l :: _ => l
      | [] => List.hd EmptyString args
      end in
    let d := lstrip_dash dest_option_string in
    if str_truthy d then inr (replace_dash d) else inl ValueError_dest
  end.

(** [parser.add_argument] for option strings [args] and keyword arguments
    [kw]: an option string the parser knows already is a conflict. *)
Definition add_argument (p : parser) (args : list string) (kw : kwargs)
  : failure + parser :=
  match dest_of args kw with
  | inl e => inl e
  | inr d =>
    let known := concat (map option_strings p) in
    match List.filter (fun o => bool_decide (o ∈ known)) args with
    | o :: _ => inl (ArgumentError o)
    | [] => inr (p ++ [mk_parser_action args d true])
    end
  end.

(** [parameters.get(progname, {}).get("arguments", [])] *)
Definition arguments_of (progname : string) : list argument :=
  match lookup_item progname parameters with
  | Some s => arguments s
  | None => []
  end.

(** [add_parser_args(parser, progname)]; [depth] bounds the nesting of the
    calls, as the interpreter's recursion limit does. *)
Fixpoint add_parser_args (depth : nat) (p : parser) (progname : string)
  : failure + parser :=
  match depth with
  | O => inl RecursionError
  | S depth' =>
    fold_left
      (fun acc arg =>
         match acc with
         | inl e => inl e
         | inr p =>
           match arg with
           | Include name => add_parser_args depth' p name
           | Opt args kw => add_argument p args kw
           end
         end)
      (arguments_of progname) (inr p)
  end.

(** How a run of the client ends: [sys.exit(code)], an exception, or the
    call of the method [method] of the service with keyword arguments of
    the names [keys]. *)
Inductive outcome :=
| SysExit (code : Z)
| Raised (e : failure)
| Calls (method : string) (keys : list string).

(** The names [parse_args] sets in the namespace. *)
Definition namespace (p : parser) : list string :=
  map dest (List.filter in_namespace p).

(** The script, for a command line that [parse_args] accepts; [progname] is
    the base name of [sys.argv[0]].  The values of the arguments are left
    out: what is kept is which method is called and under which names the
    arguments go. *)
Definition main (depth : nat) (progname : string) : outcome :=
  if String.eqb progname "rpcclient.py" || String.eqb progname "common"
  then SysExit 1
  else
    match lookup_item progname parameters with
    | None => SysExit 1
    | Some svc =>
      match add_parser_args depth ArgumentParser "common" with
      | inl e => Raised e
      | inr p =>
        match add_parser_args depth p progname with
        | inl e => Raised e
        | inr p =>
          let params := default [] (params svc) in
          match List.filter
                  (fun param => negb (bool_decide (param ∈ namespace p)))
                  params with
          | missing :: _ => Raised (AttributeError missing)
          | [] => Calls progname params
          end
        end
      end
    end.

(** The names the client can be run under. *)
Definition services : list string :=
  [ "upload_inputs"; "convert_inputs"; "download_proxies";
    "upload_proxy_edl"; "render_edl" ].

End Client.

(** A handler body that writes neither the status nor the error of a
    record: in the server only [run] writes them. *)
Definition leaves_verdict
    (methodFunc : string -> gmap string arg -> M (option string)) : Prop :=
  forall method args w l,
    status (record_at (exec (methodFunc method args) w) l)
    = status (record_at w l)
    /\ error (record_at (exec (methodFunc method args) w) l)
       = error (record_at w l).

(** An envelope whose handler call cannot succeed: the thread has no
    attribute of the operation's name, or the handler raises whatever the
    arguments and the state. *)
Definition fails (inherited : string -> bool)
    (methodFunc : string -> gmap string arg -> M (option string))
    (item : envelope) : Prop :=
  hasattr inherited (env_method item) = false
  \/ forall args w,
       exists e, outcome_of (methodFunc (env_method item) args) w = Raises e.

(** The job of an envelope has been run to its end: the record registered
    under its identifier is complete, and it carries an error when the
    handler call could not succeed. *)
Definition settled (inherited : string -> bool)
    (methodFunc : string -> gmap string arg -> M (option string))
    (w : world) (item : envelope) : Prop :=
  exists l, handlers w !! env_id item = Some l
            /\ status (record_at w l) = Some complete
            /\ (fails inherited methodFunc item ->
                is_Some (error (record_at w l))).

(** The command of job ["abc"] writes the single byte FF and exits with
    code 2; the worker records the failure and completes the job. *)
Definition w_binary_failed : world :=
  exec (fun w =>
          let '(o, w') := execCommand_finish archive_command 0 5 2 w in
          run_finish example_builtin_str 120 0 (handler_end o) w')
       (exec (OutputThread_run 5 [xff]%byte) w_spawned).

(** Whether a poll raised the error a record stores or the
    unknown-identifier error: both are a plain [Exception]. *)
Definition is_plain_exception (o : outcome response) : bool :=
  match o with
  | Raises (Exception _) => true
  | _ => false
  end.

(** * Properties *)

(** ** Records on the heap *)

Lemma record_at_Some w l r : heap w !! l = Some r -> record_at w l = r.
Proof. intros H. unfold record_at. now rewrite H. Qed.

Lemma record_at_insert_eq w l r :
  (l < length (heap w))%nat ->
  record_at (set_heap (<[l := r]> (heap w)) w) l = r.
Proof.
  intros H. unfold record_at. cbn. now rewrite list_lookup_insert_eq.
Qed.

Lemma record_at_insert_ne w l l' r :
  l <> l' -> record_at (set_heap (<[l := r]> (heap w)) w) l' = record_at w l'.
Proof.
  intros H. unfold record_at. cbn. now rewrite list_lookup_insert_ne.
Qed.

Lemma set_heap_set_heap v v' w : set_heap v (set_heap v' w) = set_heap v w.
Proof. reflexivity. Qed.

Lemma record_at_set_handlers w h l :
  record_at (set_handlers h w) l = record_at w l.
Proof. reflexivity. Qed.

Lemma record_at_set_closed w c l :
  record_at (set_closed c w) l = record_at w l.
Proof. reflexivity. Qed.

Lemma record_at_set_outputThread w o l :
  record_at (set_outputThread o w) l = record_at w l.
Proof. reflexivity. Qed.

Lemma set_closed_set_closed c c' w :
  set_closed c (set_closed c' w) = set_closed c w.
Proof. reflexivity. Qed.

(** ** Poll, computed *)

Lemma poll_started w now id l r st pd d qt pt :
  started w id l r st pd d qt pt ->
  poll now id w = poll_started_result w now id l r st pd d qt pt.
Proof.
  intros [Hh Hl Hst Hlk Hpd Hd Hqt Hpt].
  pose proof (lookup_lt_Some _ _ _ Hl) as Hlt.
  pose proof (record_at_Some _ _ _ Hl) as Hr.
  unfold poll, poll_started_result, bind, get_world.
  rewrite Hh. unfold getitem at 1. rewrite Hr, Hst.
  unfold getitem_lock. rewrite Hr, Hlk.
  unfold getitem at 1. rewrite Hr, Hpd.
  unfold getitem at 1. rewrite Hr, Hd.
  unfold setitem, modify. rewrite Hr.
  rewrite record_at_insert_eq by assumption.
  cbn [heap set_heap]. rewrite set_heap_set_heap, list_insert_insert_eq.
  fold (drained r pd d).
  set (w1 := set_heap _ w).
  assert (Hr1 : record_at w1 l = drained r pd d).
  { subst w1. now apply record_at_insert_eq. }
  unfold getitem. rewrite !Hr1. cbn [drained polldata set_data set_polldata].
  rewrite last_last.
  unfold decode_utf8. destruct (decode (join_empty d)) as [res|]; [|reflexivity].
  unfold ret at 1. rewrite Hr1.
  cbn [drained queueTime set_data set_polldata]. rewrite Hqt.
  rewrite Hr1. cbn [drained processTime set_data set_polldata]. rewrite Hpt.
  destruct (decide (st = complete)) as [->|Hne]; [|reflexivity].
  rewrite Hr1. cbn [drained polldata set_data set_polldata].
  destruct (decode (join_empty (pd ++ [join_empty d]))) as [full|];
    [|reflexivity].
  unfold ret at 1. rewrite Hr1.
  cbn [drained processTime set_data set_polldata]. rewrite Hpt.
  rewrite record_at_set_handlers, Hr1.
  cbn [drained error set_data set_polldata].
  destruct (error r); reflexivity.
Qed.

Lemma poll_unknown w now id :
  handlers w !! id = None ->
  poll now id w = (Raises (Exception ("No record of id " +:+ id)), w).
Proof. intros H. unfold poll, bind, get_world. now rewrite H. Qed.

(** A record that has no ['lock'] key yet: the [with] statement of [poll]
    fails on the subscription. *)
Lemma poll_no_lock w now id l r st :
  handlers w !! id = Some l -> heap w !! l = Some r ->
  status r = Some st -> lock r = false ->
  poll now id w = (Raises (KeyError (KStr "lock")), w).
Proof.
  intros Hh Hl Hst Hlk. pose proof (record_at_Some _ _ _ Hl) as Hr.
  unfold poll, bind, get_world. rewrite Hh.
  unfold getitem. rewrite Hr, Hst.
  unfold getitem_lock. now rewrite Hr, Hlk.
Qed.

(** ** UTF-8 and concatenation *)

Lemma string_of_list_byte_app (a b : bytes) :
  string_of_list_byte (a ++ b)
  = string_of_list_byte a +:+ string_of_list_byte b.
Proof.
  unfold string_of_list_byte.
  induction a as [|x a IH]; [reflexivity|].
  cbn. rewrite IH. reflexivity.
Qed.

Lemma utf8_valid_app_le (n : nat) : forall a b : bytes,
  (length a <= n)%nat ->
  utf8_valid a = true -> utf8_valid b = true -> utf8_valid (a ++ b) = true.
Proof.
  induction n as [|n IH]; intros a b Hlen Ha Hb.
  - destruct a; [exact Hb | cbn in Hlen; lia].
  - destruct a as [|b0 r0]; [exact Hb|].
    cbn [length] in Hlen. revert Ha. cbn [app utf8_valid].
    destruct (Byte.to_N b0 <? 128)%N.
    { intros Ha. apply IH; [lia|assumption..]. }
    destruct (Byte.to_N b0 <? 194)%N; [discriminate|].
    destruct (Byte.to_N b0 <? 224)%N.
    { destruct r0 as [|b1 r1]; [discriminate|]. cbn [app length] in *.
      intros [H1 H2]%andb_prop. rewrite H1. cbn.
      apply IH; [lia|assumption..]. }
    destruct (Byte.to_N b0 <? 240)%N.
    { destruct r0 as [|b1 [|b2 r2]]; [discriminate..|]. cbn [app length] in *.
      intros [[H1 H2]%andb_prop H3]%andb_prop. rewrite H1, H2. cbn.
      apply IH; [lia|assumption..]. }
    destruct (Byte.to_N b0 <? 245)%N; [|discriminate].
    destruct r0 as [|b1 [|b2 [|b3 r3]]]; [discriminate..|].
    cbn [app length] in *.
    intros [[[H1 H2]%andb_prop H3]%andb_prop H4]%andb_prop.
    rewrite H1, H2, H3. cbn.
    apply IH; [lia|assumption..].
Qed.

Lemma utf8_valid_app (a b : bytes) :
  utf8_valid a = true -> utf8_valid b = true -> utf8_valid (a ++ b) = true.
Proof. apply (utf8_valid_app_le (length a)). lia. Qed.

Lemma decode_Some (bs : bytes) (s : string) :
  decode bs = Some s <-> utf8_valid bs = true /\ s = string_of_list_byte bs.
Proof.
  unfold decode. destruct (utf8_valid bs); split.
  - intros [= <-]. now split.
  - intros [_ ->]. reflexivity.
  - discriminate.
  - intros [? _]. discriminate.
Qed.

(** Decoding two byte strings that are each well-formed and joining the
    texts is decoding the joined bytes. *)
Lemma decode_app (a b : bytes) (sa sb : string) :
  decode a = Some sa -> decode b = Some sb ->
  decode (a ++ b) = Some (sa +:+ sb).
Proof.
  intros [Ha ->]%decode_Some [Hb ->]%decode_Some.
  apply decode_Some. split.
  - now apply utf8_valid_app.
  - symmetry. apply string_of_list_byte_app.
Qed.

(** ** A client polling again and again *)

Lemma polls_unknown w id nows :
  handlers w !! id = None ->
  polls id nows w = (repeat (unknown_identifier id) (length nows), w).
Proof.
  intros H. induction nows as [|now rest IH]; [reflexivity|].
  cbn [polls length repeat]. rewrite (poll_unknown _ _ _ H), IH. reflexivity.
Qed.

Lemma poll_terminal w now id l r pd d qt pt full :
  started w id l r complete pd d qt pt ->
  utf8_valid (join_empty d) = true ->
  decode (join_empty (pd ++ [join_empty d])) = Some full ->
  poll now id w
  = (terminal_outcome r full qt pt, after_terminal_poll w id l r pd d).
Proof.
  intros Hs Hd Hfull. rewrite (poll_started _ _ _ _ _ _ _ _ _ _ Hs).
  unfold poll_started_result, decode at 1. rewrite Hd, Hfull.
  destruct (decide (complete = complete)) as [_|]; [|congruence].
  unfold terminal_outcome, after_terminal_poll. destruct (error r); reflexivity.
Qed.

Lemma after_terminal_poll_unknown w id l r pd d :
  handlers (after_terminal_poll w id l r pd d) !! id = None.
Proof. cbn. apply lookup_delete_eq. Qed.

Lemma record_after_terminal_poll w id l r pd d :
  heap w !! l = Some r ->
  record_at (after_terminal_poll w id l r pd d) l = drained r pd d.
Proof.
  intros H. unfold after_terminal_poll. rewrite record_at_set_handlers.
  apply record_at_insert_eq. eapply lookup_lt_Some, H.
Qed.

(** ** Worlds reached by running the server *)

(** ** C2: unknown identifiers and the terminal poll *)

Lemma count_complete_unknown id n :
  count_complete (repeat (unknown_identifier id) n) = 0%nat.
Proof. induction n as [|n IH]; [reflexivity|exact IH]. Qed.

(** C2, counterexample.  The job ["abc"] completed with exit code 2.  Of
    three polls none returns status complete: the first raises the stored
    failure and the next two raise the unknown-identifier error. *)
Lemma completed_with_error_no_poll_returns_complete :
  status (record_at w_failed 0) = Some complete
  /\ handlers w_failed !! "abc" = Some 0%nat
  /\ fst (polls "abc" [130; 131; 132]%Z w_failed)
     = [ Raises (Exception (failure_message archive_command 2 (Some "a")));
         unknown_identifier "abc"; unknown_identifier "abc" ]
  /\ count_complete (fst (polls "abc" [130; 131; 132]%Z w_failed)) <> 1%nat.
Proof. vm_compute. repeat split; congruence. Qed.

(** C2, amended.  A poll on an identifier that is not in the registry raises
    the unknown-identifier error and changes nothing.  For a completed job
    such that the bytes still in [data], joined, are well-formed UTF-8 on
    their own and the chunks of [polldata] followed by them, all joined,
    decode, the first poll is the terminal one: it
    returns status complete with the whole output when the record carries no
    error and raises the stored error when it does; it deletes the record,
    and every later poll with that identifier raises the unknown-identifier
    error.  So exactly one poll returns status complete for a job without
    error, and none for a job with one. *)
Theorem poll_unknown_and_terminal (w : world) (id : string) :
  (handlers w !! id = None ->
   forall now, poll now id w = (unknown_identifier id, w))
  /\ (forall l r pd d qt pt full,
        started w id l r complete pd d qt pt ->
        utf8_valid (join_empty d) = true ->
        decode (join_empty (pd ++ [join_empty d])) = Some full ->
        forall now nows,
          polls id (now :: nows) w
          = (terminal_outcome r full qt pt
               :: repeat (unknown_identifier id) (length nows),
             after_terminal_poll w id l r pd d)
          /\ handlers (after_terminal_poll w id l r pd d) !! id = None
          /\ count_complete (fst (polls id (now :: nows) w))
             = (if error r is Some _ then 0 else 1)%nat).
Proof.
  split.
  - intros H now. now apply poll_unknown.
  - intros l r pd d qt pt full Hs Hd Hfull now nows.
    pose proof (after_terminal_poll_unknown w id l r pd d) as Hgone.
    assert (Hp : polls id (now :: nows) w
                 = (terminal_outcome r full qt pt
                      :: repeat (unknown_identifier id) (length nows),
                    after_terminal_poll w id l r pd d)).
    { cbn [polls]. rewrite (poll_terminal _ _ _ _ _ _ _ _ _ _ Hs Hd Hfull).
      now rewrite (polls_unknown _ _ nows Hgone). }
    split; [exact Hp|]. split; [exact Hgone|].
    rewrite Hp. cbn [fst]. unfold count_complete. cbn [List.filter].
    fold (count_complete (repeat (unknown_identifier id) (length nows))).
    unfold terminal_outcome.
    destruct (error r); cbn [returns_complete r_status].
    + apply count_complete_unknown.
    + rewrite bool_decide_true by reflexivity. cbn [length].
      fold (count_complete (repeat (unknown_identifier id) (length nows))).
      now rewrite count_complete_unknown.
Qed.

Lemma started_succeeded :
  started w_succeeded "abc" 0 (record_at w_succeeded 0) complete
          [] [bytes_of "a"] 4 17.
Proof. split; vm_compute; reflexivity. Defined.

Lemma poll_unknown_and_terminal_witness :
  poll 1 "nobody" initial_world = (unknown_identifier "nobody", initial_world)
  /\ fst (polls "abc" [130; 131]%Z w_succeeded)
     = [Returns (mk_response complete "a" 4 17); unknown_identifier "abc"].
Proof.
  split.
  - apply (proj1 (poll_unknown_and_terminal initial_world "nobody")).
    reflexivity.
  - assert (Hd : utf8_valid (join_empty [bytes_of "a"]) = true)
      by (vm_compute; reflexivity).
    assert (Hfull : decode (join_empty ([] ++ [join_empty [bytes_of "a"]]))
                    = Some "a") by (vm_compute; reflexivity).
    destruct (proj2 (poll_unknown_and_terminal w_succeeded "abc")
                _ _ _ _ _ _ "a" started_succeeded Hd Hfull
                130%Z [131%Z]) as [H _].
    rewrite H. vm_compute. reflexivity.
Defined.

(** ** C9: the terminal poll of a failed job *)

(** C9, counterexample.  The command of job ["abc"] writes the byte FF,
    which no UTF-8 text holds, and exits with code 2.  The record is
    complete and carries an error, yet no poll deletes it and no poll raises
    the stored error: each of three polls raises [UnicodeDecodeError] at the
    decoding, which comes before the deletion, and the identifier is still
    registered after them. *)
Lemma failed_job_with_binary_output_is_never_delivered :
  let outs := fst (polls "abc" [130; 131; 132]%Z w_binary_failed) in
  let w' := snd (polls "abc" [130; 131; 132]%Z w_binary_failed) in
  status (record_at w_binary_failed 0) = Some complete
  /\ is_Some (error (record_at w_binary_failed 0))
  /\ handlers w_binary_failed !! "abc" = Some 0%nat
  /\ outs = repeat (Raises (UnicodeDecodeError [xff]%byte)) 3
  /\ forallb is_plain_exception outs = false
  /\ handlers w' !! "abc" = Some 0%nat
  /\ is_Some (error (record_at w' 0)).
Proof.
  cbv zeta. repeat apply conj; try (vm_compute; reflexivity);
    vm_compute; eexists; reflexivity.
Qed.

(** C9, amended.  For a completed job whose record carries an error, when
    the bytes still in [data], joined, are well-formed UTF-8 on their own
    and the chunks of [polldata] followed by them, all joined, decode: the
    poll that observes status complete raises the stored error; the record
    is gone from the registry afterwards although the poll ended by raising;
    the chunks of [data] have been moved to [polldata] in the record; and
    every later poll with the identifier raises the unknown-identifier error
    and leaves the state as it is, so the job error is raised once. *)
Theorem poll_terminal_error_deletes_record (w : world) (id : string)
    (l : loc) (r : job) (pd d : list bytes) (qt pt : Z) (full msg : string)
    (now : Z) :
  started w id l r complete pd d qt pt ->
  error r = Some msg ->
  utf8_valid (join_empty d) = true ->
  decode (join_empty (pd ++ [join_empty d])) = Some full ->
  let w' := exec (poll now id) w in
  poll now id w = (Raises (Exception msg), w')
  /\ handlers w' = delete id (handlers w)
  /\ handlers w' !! id = None
  /\ polldata (record_at w' l) = Some (pd ++ [join_empty d])
  /\ data (record_at w' l) = Some []
  /\ error (record_at w' l) = Some msg
  /\ forall nows,
       polls id nows w' = (repeat (unknown_identifier id) (length nows), w').
Proof.
  intros Hs He Hd Hfull. unfold exec.
  rewrite (poll_terminal _ now _ _ _ _ _ _ _ _ Hs Hd Hfull).
  cbn [snd]. unfold terminal_outcome. rewrite He.
  pose proof (after_terminal_poll_unknown w id l r pd d) as Hgone.
  rewrite (record_after_terminal_poll _ id _ _ pd d
             (started_heap _ _ _ _ _ _ _ _ _ Hs)).
  split; [reflexivity|]. split; [reflexivity|]. split; [exact Hgone|].
  split; [reflexivity|]. split; [reflexivity|]. split; [exact He|].
  intros nows. now apply polls_unknown.
Qed.

Lemma started_failed :
  started w_failed "abc" 0 (record_at w_failed 0) complete
          [] [bytes_of "a"] 4 17.
Proof. split; vm_compute; reflexivity. Defined.

Lemma poll_terminal_error_deletes_record_witness :
  poll 130 "abc" w_failed
  = (Raises (Exception (failure_message archive_command 2 (Some "a"))),
     exec (poll 130 "abc") w_failed)
  /\ handlers (exec (poll 130 "abc") w_failed) !! "abc" = None
  /\ polldata (record_at (exec (poll 130 "abc") w_failed) 0)
     = Some [bytes_of "a"].
Proof.
  assert (He : error (record_at w_failed 0)
               = Some (failure_message archive_command 2 (Some "a")))
    by (vm_compute; reflexivity).
  assert (Hd : utf8_valid (join_empty [bytes_of "a"]) = true)
    by (vm_compute; reflexivity).
  assert (Hfull : decode (join_empty ([] ++ [join_empty [bytes_of "a"]]))
                  = Some "a") by (vm_compute; reflexivity).
  destruct (poll_terminal_error_deletes_record w_failed "abc" 0 _ _ _ _ _
              "a" _ 130 started_failed He Hd Hfull)
    as (H1 & _ & H3 & H4 & _).
  exact (conj H1 (conj H3 H4)).
Defined.

(** ** C1: draining *)

Lemma started_drained w id l r st pd d qt pt :
  started w id l r st pd d qt pt ->
  started (set_heap (<[l := drained r pd d]> (heap w)) w) id l
          (drained r pd d) st (pd ++ [join_empty d]) [] qt pt.
Proof.
  intros [Hh Hl Hst Hlk Hpd Hd Hqt Hpt]. split; try assumption; try reflexivity.
  cbn. apply list_lookup_insert_eq. eapply lookup_lt_Some, Hl.
Qed.

Lemma poll_running w now id l r st pd d qt pt :
  started w id l r st pd d qt pt -> st <> complete ->
  poll now id w
  = (running_outcome st (join_empty d) qt pt now,
     set_heap (<[l := drained r pd d]> (heap w)) w).
Proof.
  intros Hs Hne. rewrite (poll_started _ _ _ _ _ _ _ _ _ _ Hs).
  unfold poll_started_result, running_outcome.
  destruct (decode (join_empty d)); [|reflexivity].
  destruct (decide (st = complete)); [contradiction|reflexivity].
Qed.

(** Whatever a poll on a started record ends with, the record is drained. *)
Lemma poll_drains w now id l r st pd d qt pt :
  started w id l r st pd d qt pt ->
  record_at (exec (poll now id) w) l = drained r pd d.
Proof.
  intros Hs. pose proof (started_heap _ _ _ _ _ _ _ _ _ Hs) as Hl.
  pose proof (lookup_lt_Some _ _ _ Hl) as Hlt.
  unfold exec. rewrite (poll_started _ _ _ _ _ _ _ _ _ _ Hs).
  unfold poll_started_result.
  destruct (decode (join_empty d)); [|now apply record_at_insert_eq].
  destruct (decide (st = complete)); [|now apply record_at_insert_eq].
  destruct (decode (join_empty (pd ++ [join_empty d])));
    [|now apply record_at_insert_eq].
  destruct (error r); cbn [snd]; rewrite record_at_set_handlers;
    now apply record_at_insert_eq.
Qed.

Lemma lock_dict_truthy r : lock r = true -> dict_truthy r = true.
Proof.
  intros H. unfold dict_truthy. rewrite H.
  destruct (has (status r)), (has (queueTime r)); reflexivity.
Qed.

(** A read that returns bytes appends them to [data] as one chunk. *)
Lemma OutputThread_run_appends w id l r st pd d qt pt fd c0 cs :
  started w id l r st pd d qt pt -> piped w fd id ->
  OutputThread_run fd (c0 :: cs) w
  = (Returns tt,
     set_heap (<[l := set_data (Some (d ++ [c0 :: cs])) r]> (heap w)) w).
Proof.
  intros [Hh Hl Hst Hlk Hpd Hd Hqt Hpt] [(ot & Hot & Hid) Hopen Htr].
  pose proof (record_at_Some _ _ _ Hl) as Hr.
  unfold OutputThread_run, try_except, read, the_outputThread, bind, get_world.
  destruct (decide (fd ∈ closed w)) as [|_]; [contradiction|].
  rewrite Hot. unfold ret at 1. rewrite Hid. cbn [mbind option_bind].
  rewrite Hh, Htr, Hr, (lock_dict_truthy _ Hlk). cbn [andb].
  unfold getitem_lock. rewrite Hr, Hlk.
  unfold getitem. rewrite Hr, Hd.
  unfold setitem, modify. now rewrite Hr.
Qed.

Lemma join_empty_snoc (pd : list bytes) (c : bytes) :
  join_empty (pd ++ [c]) = join_empty pd ++ c.
Proof. unfold join_empty. rewrite concat_app. cbn. now rewrite app_nil_r. Qed.

(** Polls and reads on a running job keep every byte exactly once: what is
    in [polldata] and [data] afterwards is what was there before followed by
    what the command wrote, and the polls that returned handed out, piece by
    piece, the chunks they added to [polldata]. *)
Lemma play_running id fd l qt pt (evs : list event) :
  forall w r pd d,
    started w id l r in_progress pd d qt pt -> piped w fd id ->
    exists r' pd_new d',
      started (snd (play id fd evs w)) id l r' in_progress
              (pd ++ pd_new) d' qt pt
      /\ piped (snd (play id fd evs w)) fd id
      /\ error r' = error r
      /\ join_empty pd_new ++ join_empty d' = join_empty d ++ produced evs
      /\ (forallb is_returned (fst (play id fd evs w)) = true ->
          returned_text (fst (play id fd evs w))
          = string_of_list_byte (join_empty pd_new)).
Proof.
  induction evs as [|[c0 cs|now] rest IH]; intros w r pd d Hs Hp.
  - exists r, [], d. cbn [play fst snd produced]. rewrite !app_nil_r.
    split; [exact Hs|]. split; [exact Hp|]. split; [reflexivity|].
    split; [reflexivity|]. reflexivity.
  - cbn [play produced]. unfold exec.
    rewrite (OutputThread_run_appends _ _ _ _ _ _ _ _ _ _ c0 cs Hs Hp).
    cbn [snd].
    set (r1 := set_data (Some (d ++ [c0 :: cs])) r).
    set (w1 := set_heap _ w).
    assert (Hs1 : started w1 id l r1 in_progress pd (d ++ [c0 :: cs]) qt pt).
    { destruct Hs as [Hh Hl Hst Hlk Hpd Hd Hqt Hpt].
      split; try assumption; try reflexivity.
      cbn. apply list_lookup_insert_eq. eapply lookup_lt_Some, Hl. }
    assert (Hp1 : piped w1 fd id) by (destruct Hp; now split).
    destruct (IH w1 r1 pd _ Hs1 Hp1) as (r' & pd_new & d' & H1 & H2 & He & H3 & H4).
    exists r', pd_new, d'.
    split; [exact H1|]. split; [exact H2|]. split; [exact He|].
    split; [|exact H4].
    rewrite H3, join_empty_snoc, <- app_assoc. reflexivity.
  - cbn [play produced].
    rewrite (poll_running _ now _ _ _ _ _ _ _ _ Hs) by discriminate.
    set (w1 := set_heap _ w).
    pose proof (started_drained _ _ _ _ _ _ _ _ _ Hs) as Hs1. fold w1 in Hs1.
    assert (Hp1 : piped w1 fd id) by (destruct Hp; now split).
    destruct (IH w1 _ _ _ Hs1 Hp1) as (r' & pd_new & d' & H1 & H2 & He & H3 & H4).
    destruct (play id fd rest w1) as [os w2] eqn:Hplay. cbn [fst snd] in *.
    exists r', (join_empty d :: pd_new), d'.
    rewrite <- app_assoc in H1. cbn [app] in H1.
    split; [exact H1|]. split; [exact H2|]. split; [exact He|]. split.
    + change (join_empty (join_empty d :: pd_new))
        with (join_empty d ++ join_empty pd_new).
      rewrite <- app_assoc, H3. reflexivity.
    + cbn [forallb]. intros [Ho Hos]%andb_prop.
      unfold running_outcome in *. destruct (decode (join_empty d)) as [res|] eqn:Hdec;
        [|discriminate].
      cbn [returned_text r_result]. rewrite (H4 Hos).
      apply decode_Some in Hdec as [_ ->].
      change (join_empty (join_empty d :: pd_new))
        with (join_empty d ++ join_empty pd_new).
      now rewrite string_of_list_byte_app.
Qed.

(** ** The end of a worker's turn, computed *)

Lemma run_record_eq builtin_str l r o w :
  heap w !! l = Some r ->
  run_record builtin_str l o w
  = (Returns tt, set_heap (<[l := recorded builtin_str r o]> (heap w)) w).
Proof.
  intros Hl. pose proof (record_at_Some _ _ _ Hl) as Hr.
  unfold run_record, recorded. destruct o as [output|e].
  - destruct (truthy output).
    + unfold setitem, modify. now rewrite Hr.
    + unfold ret. cbv beta iota. f_equal. destruct w; cbn in *.
      unfold set_heap; cbn. f_equal. symmetry. now apply list_insert_id.
  - unfold setitem, modify. now rewrite Hr.
Qed.

Lemma run_finish_eq builtin_str t3 l r pt o w :
  heap w !! l = Some r -> processTime r = Some pt ->
  run_finish builtin_str t3 l o w
  = (Returns tt,
     set_heap (<[l := finished builtin_str t3 r pt o]> (heap w)) w).
Proof.
  intros Hl Hpt. pose proof (lookup_lt_Some _ _ _ Hl) as Hlt.
  unfold run_finish, bind. rewrite (run_record_eq _ _ _ _ _ Hl).
  set (r1 := recorded builtin_str r o).
  assert (Hpt1 : processTime r1 = Some pt).
  { subst r1. unfold recorded. destruct o as [output|e]; [|exact Hpt].
    destruct (truthy output); exact Hpt. }
  unfold run_complete, setitem, modify.
  rewrite record_at_insert_eq by assumption.
  cbn [heap set_heap]. rewrite set_heap_set_heap, list_insert_insert_eq.
  unfold run_duration, bind, getitem.
  rewrite record_at_insert_eq by assumption.
  cbn [processTime set_status]. rewrite Hpt1.
  unfold setitem, modify. rewrite record_at_insert_eq by assumption.
  cbn [heap set_heap]. rewrite set_heap_set_heap, list_insert_insert_eq.
  reflexivity.
Qed.

Lemma started_finished builtin_str t3 o w id l r st pd d qt pt :
  started w id l r st pd d qt pt ->
  started (set_heap (<[l := finished builtin_str t3 r pt o]> (heap w)) w)
          id l (finished builtin_str t3 r pt o) complete pd d qt (t3 - pt)%Z.
Proof.
  intros [Hh Hl Hst Hlk Hpd Hd Hqt Hpt].
  assert (Hrec : forall (A : Type) (f : job -> A),
             (forall v x, f (set_results v x) = f x) ->
             (forall v x, f (set_error v x) = f x) ->
             f (recorded builtin_str r o) = f r).
  { intros A f H1 H2. unfold recorded. destruct o as [output|e]; [|apply H2].
    destruct (truthy output); [apply H1|reflexivity]. }
  split; try assumption; try reflexivity; cbn.
  - apply list_lookup_insert_eq. eapply lookup_lt_Some, Hl.
  - now rewrite (Hrec _ lock).
  - now rewrite (Hrec _ polldata).
  - now rewrite (Hrec _ data).
  - now rewrite (Hrec _ queueTime).
Qed.

Lemma error_finished_returns builtin_str t3 r pt output :
  error (finished builtin_str t3 r pt (Returns output)) = error r.
Proof. cbn. destruct (truthy output); reflexivity. Qed.

Lemma error_finished_raises builtin_str t3 r pt e :
  error (finished builtin_str t3 r pt (Raises e))
  = Some (str builtin_str e).
Proof. reflexivity. Qed.

(** C1, counterexample.  The command of job ["abc"] writes ["a"], a client
    polls, the command writes ["b"] and exits with code 0, the worker
    completes the job and the client polls again.  The two polls return
    ["a"] and ["ab"]: joined they read ["aab"], which is not the output
    ["ab"], for the terminal poll hands out again what the first poll had
    handed out. *)
Lemma poll_results_repeat_output :
  let evs := [Output "a" []; Poll 110; Output "b" []] in
  let '(outs, w1) := play "abc" 5 evs w_spawned in
  let w2 := exec (execCommand_finish archive_command 0 5 0) w1 in
  let w3 := exec (run_finish example_builtin_str 120 0 (Returns None)) w2 in
  let '(last, _) := poll 130 "abc" w3 in
  outs = [Returns (mk_response in_progress "a" 4 7)]
  /\ last = Returns (mk_response complete "ab" 4 17)
  /\ string_of_list_byte (produced evs) = "ab"
  /\ returned_text (outs ++ [last]) = "aab"
  /\ returned_text (outs ++ [last]) <> string_of_list_byte (produced evs).
Proof. vm_compute. repeat split; congruence. Qed.

(** C1, amended.  For a record the worker has started (it has its lock,
    [data] and [polldata]):
    - every poll, however it ends, moves the chunks of [data] to [polldata]
      as one appended chunk and leaves [data] empty;
    - a poll on a job that is not complete returns the drained bytes
      decoded when they are well-formed UTF-8, and raises
      [UnicodeDecodeError] when they are not;
    - the poll that observes status complete, when the drained bytes are
      well-formed UTF-8 and the chunks of [polldata] all joined decode,
      returns that decoding if the record has no error and raises the stored
      error if it has one;
    - over any run of reads and polls on a job in progress whose pipe the
      multiplexer holds, [polldata] and [data] together hold what they held
      before followed by the bytes the command wrote; and when every one of
      these polls returned, their
      results joined in order are the chunks these polls added to
      [polldata];
    - once the worker has completed the job without error, the terminal
      poll, under the same two conditions on the bytes, returns the whole
      output, which repeats what the earlier polls returned. *)
Theorem poll_drain_exactly_once (w : world) (id : string) (l : loc) (r : job)
    (st : status_t) (pd d : list bytes) (qt pt : Z) :
  started w id l r st pd d qt pt ->
  (forall now, record_at (exec (poll now id) w) l = drained r pd d)
  /\ (st <> complete -> forall now,
        outcome_of (poll now id) w
        = running_outcome st (join_empty d) qt pt now)
  /\ (st = complete -> utf8_valid (join_empty d) = true ->
      forall full, decode (join_empty (pd ++ [join_empty d])) = Some full ->
      forall now,
        outcome_of (poll now id) w = terminal_outcome r full qt pt)
  /\ (st = in_progress -> forall fd, piped w fd id -> forall evs,
      let outs := fst (play id fd evs w) in
      let w' := snd (play id fd evs w) in
      exists pd_new d',
        polldata (record_at w' l) = Some (pd ++ pd_new)
        /\ data (record_at w' l) = Some d'
        /\ join_empty pd_new ++ join_empty d' = join_empty d ++ produced evs
        /\ (forallb is_returned outs = true ->
            returned_text outs = string_of_list_byte (join_empty pd_new))
        /\ (forall builtin_str t3 now full,
              error r = None ->
              utf8_valid (join_empty d') = true ->
              decode (join_empty pd ++ join_empty d ++ produced evs)
              = Some full ->
              outcome_of (poll now id)
                (exec (run_finish builtin_str t3 l (Returns None)) w')
              = Returns (mk_response complete full qt (t3 - pt)%Z))).
Proof.
  intros Hs. split; [|split; [|split]].
  - intros now. exact (poll_drains _ now _ _ _ _ _ _ _ _ Hs).
  - intros Hne now. unfold outcome_of.
    now rewrite (poll_running _ now _ _ _ _ _ _ _ _ Hs Hne).
  - intros -> Hd full Hfull now. unfold outcome_of.
    now rewrite (poll_terminal _ now _ _ _ _ _ _ _ _ Hs Hd Hfull).
  - intros -> fd Hp evs.
    destruct (play_running id fd l qt pt evs w r pd d Hs Hp)
      as (r' & pd_new & d' & Hs' & Hp' & He & Hcat & Htext).
    cbn zeta. exists pd_new, d'.
    pose proof (started_heap _ _ _ _ _ _ _ _ _ Hs') as Hl'.
    rewrite (record_at_Some _ _ _ Hl').
    split; [exact (started_polldata _ _ _ _ _ _ _ _ _ Hs')|].
    split; [exact (started_data _ _ _ _ _ _ _ _ _ Hs')|].
    split; [exact Hcat|]. split; [exact Htext|].
    intros builtin_str t3 now full Herr Hd' Hfull.
    unfold exec, outcome_of.
    rewrite (run_finish_eq builtin_str t3 l r' pt _ _ Hl'
               (started_processTime _ _ _ _ _ _ _ _ _ Hs')).
    cbn [snd].
    pose proof (started_finished builtin_str t3 (Returns None) _ _ _ _ _ _ _
                  _ _ Hs') as Hfin.
    assert (Hfull' : decode (join_empty ((pd ++ pd_new) ++ [join_empty d']))
                     = Some full).
    { rewrite join_empty_snoc. unfold join_empty at 1.
      rewrite concat_app. fold (join_empty pd) (join_empty pd_new).
      rewrite <- app_assoc, Hcat. exact Hfull. }
    rewrite (poll_terminal _ now _ _ _ _ _ _ _ _ Hfin Hd' Hfull').
    cbn [fst]. unfold terminal_outcome.
    rewrite error_finished_returns, He, Herr. reflexivity.
Qed.

Lemma started_output_a :
  started w_output_a "abc" 0 (record_at w_output_a 0) in_progress
          [] [bytes_of "a"] 4 103.
Proof. split; vm_compute; reflexivity. Defined.

Lemma started_spawned :
  started w_spawned "abc" 0 (record_at w_spawned 0) in_progress [] [] 4 103.
Proof. split; vm_compute; reflexivity. Defined.

Lemma piped_spawned : piped w_spawned 5 "abc".
Proof.
  split.
  - eexists. split; vm_compute; reflexivity.
  - intros H. vm_compute in H. discriminate H.
  - reflexivity.
Defined.

Lemma poll_drain_exactly_once_witness :
  record_at (exec (poll 110 "abc") w_output_a) 0
  = drained (record_at w_output_a 0) [] [bytes_of "a"]
  /\ outcome_of (poll 110 "abc") w_output_a
     = Returns (mk_response in_progress "a" 4 7)
  /\ (let evs := [Output "a" []; Poll 110; Output "b" []] in
      exists pd_new d',
        data (record_at (snd (play "abc" 5 evs w_spawned)) 0) = Some d'
        /\ join_empty pd_new ++ join_empty d' = bytes_of "ab").
Proof.
  destruct (poll_drain_exactly_once w_output_a "abc" 0 _ in_progress
              [] [bytes_of "a"] 4 103 started_output_a) as (H1 & H2 & _).
  split; [apply H1|]. split.
  - rewrite H2 by discriminate. vm_compute. reflexivity.
  - destruct (poll_drain_exactly_once w_spawned "abc" 0 _ in_progress
                [] [] 4 103 started_spawned) as (_ & _ & _ & H4).
    destruct (H4 eq_refl 5%nat piped_spawned
                [Output "a" []; Poll 110; Output "b" []])
      as (pd_new & d' & _ & Hd & Hcat & _).
    exists pd_new, d'. split; [exact Hd|exact Hcat].
Defined.

(** ** Submit, computed *)

Lemma launch_thread_accepts now id_ method args w :
  str_truthy id_ = true ->
  launch_thread now (Some id_) method args w
  = (Returns ("Please poll with id " +:+ id_),
     submitted now id_ method args w).
Proof.
  intros Hid. destruct id_ as [|c s]; [discriminate|].
  unfold launch_thread, submitted. destruct (route method) as [queueName queue].
  unfold bind, new_dict, modify, ret. cbn.
  destruct (decide (queueName ∈ handlerThreads w)); reflexivity.
Qed.

Lemma launch_thread_rejects now method args w :
  launch_thread now None method args w
  = (Raises (Exception "No ID found, screw this"), w)
  /\ launch_thread now (Some "") method args w
     = (Raises (Exception "No ID found, screw this"), w).
Proof. split; reflexivity. Qed.

Lemma record_at_submitted_new now id_ method args w :
  record_at (submitted now id_ method args w) (length (heap w))
  = queued_record now.
Proof.
  unfold submitted, record_at. destruct (route method). cbn [heap].
  now rewrite list_lookup_middle.
Qed.

Lemma record_at_submitted_old now id_ method args w l r :
  heap w !! l = Some r ->
  record_at (submitted now id_ method args w) l = r.
Proof.
  intros H. unfold submitted, record_at. destruct (route method). cbn [heap].
  now rewrite (lookup_app_l_Some _ _ _ _ H).
Qed.

Lemma handlers_submitted now id_ method args w :
  handlers (submitted now id_ method args w)
  = <[id_ := length (heap w)]> (handlers w).
Proof. unfold submitted. now destruct (route method). Qed.

(** ** C5: polling a job that is still queued *)

(** C5, the code at the failing input.  Whatever the state of the server,
    after a submit under a non-empty identifier [String c s] the record is
    queued and has no lock yet, and a poll with that identifier raises
    [KeyError] on ['lock'] instead of returning status queued. *)
Theorem poll_just_submitted_raises (now now' : Z) (c : ascii) (s : string)
    (method : string) (args : gmap string arg) (w : world) :
  let id_ := String c s in
  let w' := exec (launch_thread now (Some id_) method args) w in
  outcome_of (launch_thread now (Some id_) method args) w
  = Returns ("Please poll with id " +:+ id_)
  /\ (exists l, handlers w' !! id_ = Some l
                /\ status (record_at w' l) = Some queued)
  /\ poll now' id_ w' = (Raises (KeyError (KStr "lock")), w').
Proof.
  intros id_ w'. subst w'. unfold exec, outcome_of.
  rewrite (launch_thread_accepts now id_ method args w eq_refl).
  cbn [fst snd]. split; [reflexivity|].
  assert (Hh : handlers (submitted now id_ method args w) !! id_
               = Some (length (heap w))).
  { rewrite handlers_submitted. apply lookup_insert_eq. }
  assert (Hl : heap (submitted now id_ method args w) !! length (heap w)
               = Some (queued_record now)).
  { unfold submitted. destruct (route method). cbn [heap].
    apply list_lookup_middle. reflexivity. }
  split.
  - exists (length (heap w)). split; [exact Hh|].
    now rewrite record_at_submitted_new.
  - exact (poll_no_lock _ now' _ _ _ queued Hh Hl eq_refl eq_refl).
Qed.

(** ** C6: submit *)

Lemma dict_get_default (d : list (string * string)) (key default : string) :
  key ∉ d.*1 -> dict_get d key default = default.
Proof.
  induction d as [|[k v] d IH]; intros Hnot; [reflexivity|].
  cbn [dict_get]. apply not_elem_of_cons in Hnot as [Hne Hnot].
  cbn in Hne. destruct (String.eqb_spec k key) as [->|_]; [congruence|].
  now apply IH.
Qed.

Lemma route_known (method name : string) :
  (method, name) ∈ queueMap ->
  exists c, route method = (name, c) /\ category_name c = name.
Proof.
  unfold queueMap. intros H.
  repeat (apply elem_of_cons in H as [[= -> ->]|H];
          [eexists; split; vm_compute; reflexivity|]).
  now apply elem_of_nil in H.
Qed.

Lemma route_unknown (method : string) :
  method ∉ queueMap.*1 -> route method = ("local", local).
Proof. intros H. unfold route. now rewrite (dict_get_default _ _ _ H). Qed.

Lemma queue_of_set_queue_eq c v q : queue_of c (set_queue c v q) = v.
Proof. now destruct c. Qed.

Lemma queue_of_set_queue_ne c c' v q :
  c <> c' -> queue_of c' (set_queue c v q) = queue_of c' q.
Proof. destruct c, c'; intros H; try reflexivity; congruence. Qed.

(** C6.  A submit without identifier, or with an empty one, raises and
    changes nothing.  A submit
    with one returns the advisory message at once; what it leaves behind is
    a new record holding only status queued and the time of the submit, bound
    to the identifier; the envelope at the tail of the queue of the
    operation's category, the other queues as they were; a worker recorded
    for that category; every older record untouched, so nothing has been
    executed.  The category is the one the table [queueMap] gives for the
    operation, and the local one for a name the table does not have. *)
Theorem launch_thread_queues_job (now : Z) (method : string)
    (args : gmap string arg) (w : world) :
  launch_thread now None method args w
  = (Raises (Exception "No ID found, screw this"), w)
  /\ launch_thread now (Some "") method args w
     = (Raises (Exception "No ID found, screw this"), w)
  /\ (forall id_, str_truthy id_ = true ->
      let w' := exec (launch_thread now (Some id_) method args) w in
      let queueName := fst (route method) in
      let queue := snd (route method) in
      outcome_of (launch_thread now (Some id_) method args) w
      = Returns ("Please poll with id " +:+ id_)
      /\ handlers w' = <[id_ := length (heap w)]> (handlers w)
      /\ heap w' = heap w ++ [queued_record now]
      /\ queued_record now
         = mk_job (Some queued) (Some now) false None None None None None
                  None None
      /\ queue_of queue (queues w')
         = queue_of queue (queues w) ++ [mk_envelope method args id_]
      /\ (forall c, c <> queue -> queue_of c (queues w') = queue_of c (queues w))
      /\ queueName ∈ handlerThreads w'
      /\ category_name queue = queueName)
  /\ (forall name, (method, name) ∈ queueMap -> fst (route method) = name)
  /\ (method ∉ queueMap.*1 -> route method = ("local", local)).
Proof.
  split; [reflexivity|]. split; [reflexivity|]. split; [|split].
  - intros id_ Hid w' queueName queue. subst w' queueName queue.
    unfold exec, outcome_of.
    rewrite (launch_thread_accepts now id_ method args w Hid).
    cbn [fst snd]. unfold submitted.
    assert (Hname : category_name (snd (route method)) = fst (route method)).
    { destruct (decide (method ∈ queueMap.*1)) as [Hin|Hnot].
      - apply list_elem_of_fmap in Hin as ([m name] & -> & Hin).
        cbn [fst]. destruct (route_known _ _ Hin) as (c & -> & Hc). exact Hc.
      - now rewrite (route_unknown _ Hnot). }
    destruct (route method) as [queueName queue]. cbn [fst snd] in *.
    cbn [handlers heap queues handlerThreads].
    split; [reflexivity|]. split; [reflexivity|]. split; [reflexivity|].
    split; [reflexivity|]. split; [apply queue_of_set_queue_eq|].
    split; [intros c Hc; now apply queue_of_set_queue_ne|].
    split; [|exact Hname].
    destruct (decide (queueName ∈ handlerThreads w)); [assumption|].
    apply elem_of_union_l, elem_of_singleton. reflexivity.
  - intros name Hin. destruct (route_known _ _ Hin) as (c & -> & _).
    reflexivity.
  - apply route_unknown.
Qed.

Lemma launch_thread_queues_job_witness :
  outcome_of (launch_thread 100 (Some "abc") "archive_to_s3" ∅) initial_world
  = Returns "Please poll with id abc"
  /\ queue_of external_network_bound
       (queues (exec (launch_thread 100 (Some "abc") "archive_to_s3" ∅)
                     initial_world))
     = [mk_envelope "archive_to_s3" ∅ "abc"]
  /\ fst (route "archive_to_s3") = "external-network-bound"
  /\ route "no_such_operation" = ("local", local).
Proof.
  destruct (launch_thread_queues_job 100 "archive_to_s3" ∅ initial_world)
    as (_ & _ & H & Hk & _).
  destruct (H "abc" eq_refl) as (H1 & _ & _ & _ & H5 & _).
  split; [exact H1|]. split; [exact H5|]. split.
  - apply Hk. vm_compute. repeat constructor.
  - apply (launch_thread_queues_job 100 "no_such_operation" ∅ initial_world).
    vm_compute. intros H'. 
    repeat (apply elem_of_cons in H' as [H'|H']; [discriminate|]).
    now apply elem_of_nil in H'.
Defined.

(** ** C10: submit under an identifier that is already registered *)

(** C10.  A submit under an identifier the registry already holds does not
    raise.  The identifier is bound afterwards to a new record that has
    status queued and the new enqueue time and no other key; the record it
    was bound to keeps what it had but is no longer the one the registry
    gives for the identifier, so its status, buffered output and error are
    out of reach of any poll. *)
Theorem launch_thread_overwrites_record (now : Z) (id_ method : string)
    (args : gmap string arg) (w : world) (l_old : loc) (r_old : job) :
  str_truthy id_ = true ->
  handlers w !! id_ = Some l_old ->
  heap w !! l_old = Some r_old ->
  let w' := exec (launch_thread now (Some id_) method args) w in
  let l_new := length (heap w) in
  outcome_of (launch_thread now (Some id_) method args) w
  = Returns ("Please poll with id " +:+ id_)
  /\ handlers w' !! id_ = Some l_new
  /\ l_new <> l_old
  /\ record_at w' l_new
     = mk_job (Some queued) (Some now) false None None None None None None None
  /\ record_at w' l_old = r_old
  /\ (forall id', id' <> id_ -> handlers w' !! id' = handlers w !! id').
Proof.
  intros Hid Hh Hl w' l_new. subst w' l_new. unfold exec, outcome_of.
  rewrite (launch_thread_accepts now id_ method args w Hid). cbn [fst snd].
  split; [reflexivity|]. rewrite handlers_submitted.
  split; [apply lookup_insert_eq|].
  split; [apply lookup_lt_Some in Hl; lia|].
  split; [apply record_at_submitted_new|].
  split; [now apply record_at_submitted_old|].
  intros id' Hne. now apply lookup_insert_ne.
Qed.

Lemma launch_thread_overwrites_record_witness :
  handlers (exec (launch_thread 200 (Some "abc") "render_edl" ∅) w_failed)
    !! "abc" = Some 1%nat
  /\ record_at (exec (launch_thread 200 (Some "abc") "render_edl" ∅) w_failed)
               1
     = mk_job (Some queued) (Some 200%Z) false None None None None None None
              None
  /\ error (record_at
              (exec (launch_thread 200 (Some "abc") "render_edl" ∅) w_failed)
              0)
     = Some (failure_message archive_command 2 (Some "a")).
Proof.
  assert (Hh : handlers w_failed !! "abc" = Some 0%nat)
    by (vm_compute; reflexivity).
  assert (Hl : heap w_failed !! 0%nat = Some (record_at w_failed 0))
    by (vm_compute; reflexivity).
  destruct (launch_thread_overwrites_record 200 "abc" "render_edl" ∅ w_failed
              0 _ eq_refl Hh Hl) as (_ & H2 & _ & H4 & H5 & _).
  split; [exact H2|]. split; [exact H4|].
  rewrite H5. vm_compute. reflexivity.
Defined.

(** ** C7: registering twice, removing what is not registered *)

Lemma add_registered w ot id l r fd :
  outputThread w = Some ot -> handlers w !! id = Some l ->
  heap w !! l = Some r -> pipe r = Some fd -> fd ∈ sel ot ->
  add id w
  = (Returns tt,
     set_outputThread (Some (set_idMap (<[fd := id]> (idMap ot)) ot)) w).
Proof.
  intros Hot Hh Hl Hp Hin. pose proof (record_at_Some _ _ _ Hl) as Hr.
  unfold add, sel_register.
  py_run ltac:(rewrite ?Hot, ?Hh, ?Hr, ?Hp).
  destruct (decide (fd ∈ sel ot)); [reflexivity|contradiction].
Qed.

Lemma remove_not_in_idMap w ot fd :
  outputThread w = Some ot -> idMap ot !! fd = None ->
  remove fd w = (Raises (KeyError (KStream fd)), w).
Proof.
  intros Hot Hfd. unfold remove. unfold_py. rewrite Hot.
  destruct (decide (fd ∈ dom (idMap ot))) as [Hin|_]; [|reflexivity].
  apply elem_of_dom in Hin as [x Hx]. congruence.
Qed.

Lemma remove_not_in_selector w ot fd :
  outputThread w = Some ot -> is_Some (idMap ot !! fd) ->
  fd ∉ sel ot -> fd ∉ closed w ->
  fileno w fd ∉ registered_numbers w ot ->
  remove fd w
  = (Raises (KeyError (KStream fd)),
     set_outputThread (Some (set_idMap (delete fd (idMap ot)) ot)) w).
Proof.
  intros Hot Hfd Hsel Hcl Hnum. unfold remove, sel_unregister. unfold_py.
  rewrite Hot.
  destruct (decide (fd ∈ dom (idMap ot))) as [_|Hn];
    [|now apply elem_of_dom in Hfd].
  py_run ltac:(rewrite ?Hot).
  destruct (decide (fd ∈ sel ot)); [contradiction|].
  destruct (decide (fd ∈ closed w)); [contradiction|].
  destruct (decide (_ ∈ _)) as [Hin|_]; [|reflexivity].
  exfalso. apply Hnum. exact Hin.
Qed.

(** C7, the code at the failing input.  On a multiplexer that has nothing
    registered, [remove] of a stream raises [KeyError] to its caller; when
    the stream is known to [idMap] but not to the selector it raises too,
    after it has dropped the [idMap] entry.  [add] of a stream that is
    registered already returns normally: only [add] catches the
    [KeyError]. *)
Theorem remove_unregistered_raises (w : world) (fd : stream) (id : string) :
  let fresh := set_outputThread (Some (mk_output_thread ∅ ∅ true)) w in
  remove fd fresh = (Raises (KeyError (KStream fd)), fresh)
  /\ (let known :=
        set_closed ∅
          (set_outputThread (Some (mk_output_thread {[fd := id]} ∅ true)) w)
      in
      remove fd known = (Raises (KeyError (KStream fd)),
                         set_closed ∅ fresh))
  /\ add "abc" w_spawned = (Returns tt, w_spawned)
  /\ outcome_of (call remove 5; remove 5) w_spawned
     = Raises (KeyError (KStream 5)).
Proof.
  intros fresh. split; [|split; [|split]].
  - apply (remove_not_in_idMap fresh (mk_output_thread ∅ ∅ true));
      [reflexivity|apply lookup_empty].
  - intros known.
    rewrite (remove_not_in_selector known
               (mk_output_thread {[fd := id]} ∅ true)).
    + unfold known, fresh, set_outputThread, set_closed, set_idMap. cbn.
      now rewrite delete_singleton_eq.
    + reflexivity.
    + cbn. rewrite lookup_singleton_eq. now eexists.
    + cbn. apply not_elem_of_empty.
    + cbn. apply not_elem_of_empty.
    + unfold registered_numbers. cbn [sel]. rewrite set_map_empty.
      apply not_elem_of_empty.
  - vm_compute. reflexivity.
  - vm_compute. reflexivity.
Qed.

(** ** C3: the command runner *)

Lemma execCommand_finish_eq command l r fd d stdout retCode w :
  heap w !! l = Some r -> pipe r = Some fd -> lock r = true ->
  data r = Some d ->
  execCommand_finish command l stdout retCode w
  = let w1 := set_closed ({[fd]} ∪ ({[stdout]} ∪ closed w)) w in
    match captured d with
    | Raises e => (Raises e, w1)
    | Returns output =>
      if decide (retCode = 0%Z)
      then (Returns tt,
            set_heap (<[l := set_result (Some output) r]> (heap w)) w1)
      else (Raises (Exception (failure_message command retCode output)), w1)
    end.
Proof.
  intros Hl Hp Hlk Hd. pose proof (record_at_Some _ _ _ Hl) as Hr.
  unfold execCommand_finish, captured.
  py_run ltac:(rewrite ?record_at_set_closed, ?set_closed_set_closed,
                       ?Hr, ?Hp, ?Hlk, ?Hd).
  destruct d as [|c0 d'];
    py_run ltac:(rewrite ?record_at_set_closed, ?Hr).
  - destruct (decide (retCode = 0%Z));
      py_run ltac:(rewrite ?record_at_set_closed, ?Hr); reflexivity.
  - destruct (decode (join_space (c0 :: d')));
      py_run ltac:(rewrite ?record_at_set_closed, ?Hr); [|reflexivity].
    destruct (decide (retCode = 0%Z));
      py_run ltac:(rewrite ?record_at_set_closed, ?Hr); reflexivity.
Qed.

(** The part of the claim the code meets: a command that exits with a
    non-zero code makes [execCommand] raise a failure whose message is made
    of the command line, the exit code and, when there is some, the output it
    captured. *)
Lemma execCommand_nonzero_raises command l r fd d stdout retCode w output :
  heap w !! l = Some r -> pipe r = Some fd -> lock r = true ->
  data r = Some d -> captured d = Returns output -> retCode <> 0%Z ->
  outcome_of (execCommand_finish command l stdout retCode) w
  = Raises (Exception (failure_message command retCode output)).
Proof.
  intros Hl Hp Hlk Hd Hc Hne. unfold outcome_of.
  rewrite (execCommand_finish_eq _ _ _ _ _ _ _ _ Hl Hp Hlk Hd), Hc.
  cbn zeta. destruct (decide (retCode = 0%Z)); [contradiction|reflexivity].
Qed.

(** C3, the code at the failing inputs.  [execCommand] joins the buffered
    chunks with a space, where [poll] joins them with nothing.
    - The command writes ["a"] then ["b"] and exits with code 0:
      [execCommand] stores ["a b"] as the job's result, and the terminal
      poll returns ["ab"].
    - The command writes 1023 letters followed by an e with an acute accent
      (two bytes) and exits with code 0; [fd.read(1024)] returns the first
      1024 bytes, then the last one.  The bytes joined are well-formed
      UTF-8, yet [execCommand] raises [UnicodeDecodeError] on the bytes with
      a space in between, [run] stores that as the job's error, and the
      terminal poll raises although the exit code is zero. *)
Theorem execCommand_joins_with_space (builtin_str : exn -> string) :
  let w_ab := w_two_chunks builtin_str (bytes_of "a") (bytes_of "b") in
  let c1 : bytes := (repeat "a" 1023 ++ [xc3])%byte in
  let c2 : bytes := [xa9]%byte in
  let w_e := w_two_chunks builtin_str c1 c2 in
  let failure := UnicodeDecodeError (join_space [c1; c2]) in
  result (record_at w_ab 0) = Some (Some "a b")
  /\ outcome_of (poll 130 "abc") w_ab
     = Returns (mk_response complete "ab" 4 17)
  /\ length c1 = 1024%nat
  /\ utf8_valid (join_empty [c1; c2]) = true
  /\ captured [c1; c2] = Raises failure
  /\ error (record_at w_e 0) = Some (builtin_str failure)
  /\ outcome_of (poll 130 "abc") w_e = Raises (Exception (builtin_str failure)).
Proof.
  cbn zeta. repeat apply conj; vm_compute; reflexivity.
Qed.

(** ** C4: the worker and a failing handler *)

Lemma keys_kept_refl r : keys_kept r r.
Proof. intros k H. exact H. Qed.

Lemma keys_kept_trans r1 r2 r3 :
  keys_kept r1 r2 -> keys_kept r2 r3 -> keys_kept r1 r3.
Proof. intros H12 H23 k H. apply H23, H12, H. Qed.

Lemma records_kept_refl w : records_kept w w.
Proof.
  split; [reflexivity|]. intros l r H. exists r.
  split; [exact H|apply keys_kept_refl].
Qed.

Lemma records_kept_trans w1 w2 w3 :
  records_kept w1 w2 -> records_kept w2 w3 -> records_kept w1 w3.
Proof.
  intros [Hh12 H12] [Hh23 H23]. split; [congruence|].
  intros l r Hl. destruct (H12 _ _ Hl) as (r2 & Hl2 & Hk2).
  destruct (H23 _ _ Hl2) as (r3 & Hl3 & Hk3).
  exists r3. split; [exact Hl3|]. eapply keys_kept_trans; eassumption.
Qed.

(** Storing at [l] a record that has the keys of the one that was there. *)
Lemma records_kept_store w l r r' :
  heap w !! l = Some r -> keys_kept r r' ->
  records_kept w (set_heap (<[l := r']> (heap w)) w).
Proof.
  intros Hl Hk. split; [reflexivity|]. intros l0 r0 Hl0. cbn [heap set_heap].
  destruct (decide (l = l0)) as [<-|Hne].
  - exists r'. split.
    + apply list_lookup_insert_eq. eapply lookup_lt_Some, Hl.
    + assert (r0 = r) as -> by congruence. exact Hk.
  - exists r0. split; [|apply keys_kept_refl].
    rewrite list_lookup_insert_ne by assumption. exact Hl0.
Qed.

Lemma keys_kept_begun t1 t2 qt r : keys_kept r (begun t1 t2 qt r).
Proof. intros k H. destruct k; cbn in *; try reflexivity; exact H. Qed.

Lemma keys_kept_finished builtin_str t3 r pt o :
  keys_kept r (finished builtin_str t3 r pt o).
Proof.
  intros k H. unfold finished, recorded.
  destruct o as [[output|]|e]; [destruct (truthy (Some output))| |];
    destruct k; cbn in *; try reflexivity; exact H.
Qed.

Lemma waiting_kept w w' item l :
  records_kept w w' -> waiting w item l -> waiting w' item l.
Proof.
  intros [Hh Hk] (Hid & Hm & Hl & r & Hr & Hq).
  destruct (Hk _ _ Hr) as (r' & Hr' & Hkk).
  split; [exact Hid|]. split; [exact Hm|]. split; [now rewrite Hh|].
  exists r'. split; [exact Hr'|]. apply Hkk, Hq.
Qed.

Lemma run_begin_eq t1 t2 item w l r qt :
  str_truthy (env_id item) = true -> str_truthy (env_method item) = true ->
  handlers w !! env_id item = Some l -> heap w !! l = Some r ->
  queueTime r = Some qt ->
  run_begin t1 t2 item w
  = (Returns (Some (l, <["myId" := AStr (env_id item)]> (env_args item))),
     set_heap (<[l := begun t1 t2 qt r]> (heap w)) w).
Proof.
  intros Hid Hm Hh Hl Hq. pose proof (record_at_Some _ _ _ Hl) as Hr.
  pose proof (lookup_lt_Some _ _ _ Hl) as Hlt.
  unfold run_begin. rewrite Hid, Hm. cbn [negb orb].
  py_run ltac:(rewrite ?Hh, ?Hr).
  repeat (rewrite record_at_insert_eq by (rewrite ?length_insert; assumption);
          cbn [heap set_heap queueTime set_lock set_status set_processTime];
          rewrite ?set_heap_set_heap, ?list_insert_insert_eq, ?Hq;
          unfold_py).
  reflexivity.
Qed.

Section WorkerLoop.

Variable builtin_str : exn -> string.
Variable inherited : string -> bool.
Variable methodFunc : string -> gmap string arg -> M (option string).
Hypothesis methodFunc_well_behaved : well_behaved methodFunc.

Lemma run_call_kept method args w :
  records_kept w (exec (run_call inherited methodFunc method args) w)
  /\ queues (exec (run_call inherited methodFunc method args) w) = queues w.
Proof.
  unfold run_call. destruct (negb (hasattr inherited method)).
  - split; [apply records_kept_refl|reflexivity].
  - apply methodFunc_well_behaved.
Qed.

Lemma run_call_unknown method args w :
  hasattr inherited method = false ->
  run_call inherited methodFunc method args w
  = (Raises (Exception ("No thread handler exists for method " +:+ method)),
     w).
Proof. intros H. unfold run_call. now rewrite H. Qed.

(** One turn of the loop on a waiting envelope, computed. *)
Lemma run_item_eq t1 t2 t3 item w l :
  waiting w item l ->
  let w1 := exec (run_begin t1 t2 item) w in
  let args := <["myId" := AStr (env_id item)]> (env_args item) in
  let o := outcome_of (run_call inherited methodFunc (env_method item) args)
                      w1 in
  let w2 := exec (run_call inherited methodFunc (env_method item) args) w1 in
  exists r2 pt,
    heap w2 !! l = Some r2 /\ processTime r2 = Some pt
    /\ records_kept w w2 /\ queues w2 = queues w
    /\ run_item builtin_str inherited methodFunc t1 t2 t3 item w
       = (Returns tt,
          set_heap (<[l := finished builtin_str t3 r2 pt o]> (heap w2)) w2).
Proof.
  intros (Hid & Hm & Hh & r & Hl & Hq).
  cbn [has_key] in Hq. destruct (queueTime r) as [qt|] eqn:Hqt;
    [|discriminate].
  intros w1 args o w2.
  pose proof (run_begin_eq t1 t2 item w l r qt Hid Hm Hh Hl Hqt) as Hb.
  assert (Hw1 : w1 = set_heap (<[l := begun t1 t2 qt r]> (heap w)) w).
  { subst w1. unfold exec. now rewrite Hb. }
  assert (Hk1 : records_kept w w1).
  { rewrite Hw1. eapply records_kept_store; [exact Hl|].
    apply keys_kept_begun. }
  assert (Hl1 : heap w1 !! l = Some (begun t1 t2 qt r)).
  { rewrite Hw1. cbn. apply list_lookup_insert_eq.
    eapply lookup_lt_Some, Hl. }
  destruct (run_call_kept (env_method item) args w1) as [[Hh2 Hk2] Hq2].
  fold w2 in Hh2, Hk2, Hq2.
  destruct (Hk2 _ _ Hl1) as (r2 & Hl2 & Hkk).
  pose proof (Hkk K_processTime eq_refl) as Hpt. cbn [has_key] in Hpt.
  destruct (processTime r2) as [pt|] eqn:Hpt2; [|discriminate].
  exists r2, pt. split; [exact Hl2|]. split; [exact Hpt2|].
  split; [|split].
  - eapply records_kept_trans; [exact Hk1|]. split; assumption.
  - rewrite Hq2, Hw1. reflexivity.
  - unfold run_item, bind. rewrite Hb. fold args. rewrite <- Hw1.
    subst o w2. unfold outcome_of, exec in *.
    destruct (run_call inherited methodFunc (env_method item) args w1)
      as [o' w2'].
    cbn [fst snd] in *. now apply run_finish_eq.
Qed.

(** The loop takes every waiting envelope in turn and does not raise. *)
Lemma run_takes_all c (times : list (Z * Z * Z)) :
  forall w,
    Forall (fun item => exists l, waiting w item l) (queue_of c (queues w)) ->
    outcome_of (run builtin_str inherited methodFunc c times) w
    = Returns (Nat.min (length times) (length (queue_of c (queues w))))
    /\ queue_of c (queues (exec (run builtin_str inherited methodFunc c times)
                               w))
       = drop (length times) (queue_of c (queues w)).
Proof.
  induction times as [|[[t1 t2] t3] times IH]; intros w Hall.
  - split; reflexivity.
  - cbn [run]. unfold outcome_of, exec, queue_get. unfold_py.
    destruct (queue_of c (queues w)) as [|item rest] eqn:Hqueue.
    { split; [reflexivity|]. cbn. now rewrite Hqueue. }
    set (wq := set_queues (set_queue c rest (queues w)) w).
    apply Forall_cons in Hall as [[l Hw] Hrest].
    assert (Hkq : records_kept w wq).
    { split; [reflexivity|]. intros l0 r0 H0. exists r0.
      split; [exact H0|apply keys_kept_refl]. }
    pose proof (waiting_kept _ _ _ _ Hkq Hw) as Hwq.
    destruct (run_item_eq t1 t2 t3 item wq l Hwq)
      as (r2 & pt & Hl2 & Hpt & Hk2 & Hq2 & Hrun).
    rewrite Hrun.
    set (w3 := set_heap _ _) in *.
    assert (Hk3 : records_kept wq w3).
    { eapply records_kept_trans; [exact Hk2|].
      eapply records_kept_store; [exact Hl2|]. apply keys_kept_finished. }
    assert (Hq3 : queue_of c (queues w3) = rest).
    { subst w3. cbn [queues set_heap]. rewrite Hq2. subst wq.
      cbn [queues set_queues]. apply queue_of_set_queue_eq. }
    assert (Hall3 : Forall (fun item => exists l, waiting w3 item l)
                           (queue_of c (queues w3))).
    { rewrite Hq3. eapply Forall_impl; [exact Hrest|].
      intros it [l' Hl']. exists l'.
      eapply waiting_kept; [|exact Hl'].
      eapply records_kept_trans; [exact Hkq|exact Hk3]. }
    destruct (IH w3 Hall3) as [Ho Hq]. unfold outcome_of, exec in Ho, Hq.
    destruct (run builtin_str inherited methodFunc c times w3) as [o4 w4].
    cbn [fst snd] in *. rewrite Ho. cbn [fst snd length Nat.min drop].
    rewrite Hq3 in *. split; [reflexivity|exact Hq].
Qed.

End WorkerLoop.

Lemma queueTime_setitem l (f : job -> job) w :
  (forall r, queueTime (f r) = queueTime r) ->
  queueTime (record_at (set_heap (<[l := f (record_at w l)]> (heap w)) w) l)
  = queueTime (record_at w l).
Proof.
  intros Hf. destruct (decide (l < length (heap w))%nat) as [Hlt|Hge].
  - rewrite record_at_insert_eq by assumption. apply Hf.
  - unfold record_at. cbn [heap set_heap].
    now rewrite list_insert_ge by lia.
Qed.

(** An envelope that is not waiting never comes to the handler call: with
    an empty identifier or operation the turn is skipped, and otherwise the
    subscription [data['queueTime']] raises before the [try]. *)
Lemma run_begin_not_waiting t1 t2 item w :
  (forall l, ~ waiting w item l) ->
  outcome_of (run_begin t1 t2 item) w = Returns None
  \/ outcome_of (run_begin t1 t2 item) w = Raises (KeyError (KStr "queueTime")).
Proof.
  intros Hnot. unfold outcome_of, run_begin.
  destruct (str_truthy (env_id item)) eqn:Hid; [|now left].
  destruct (str_truthy (env_method item)) eqn:Hm; [|now left].
  right. cbn [negb orb].
  assert (Htail : forall (w0 : world) (l : loc),
             queueTime (record_at w0 l) = None ->
             fst ((call setitem l (set_lock true);
                   call setitem l (set_status (Some in_progress));
                   call setitem l (set_processTime (Some t1));
                   do qt <- getitem l "queueTime" queueTime;
                   call setitem l (set_queueTime (Some (t2 - qt)%Z));
                   call setitem l (set_data (Some []));
                   call setitem l (set_polldata (Some []));
                   ret (Some (l, <["myId" := AStr (env_id item)]>
                                   (env_args item)))) w0)
             = Raises (KeyError (KStr "queueTime"))).
  { intros w0 l Hq. unfold setitem at 1 2 3. unfold_py.
    unfold getitem.
    rewrite !queueTime_setitem by reflexivity. now rewrite Hq. }
  unfold bind at 1. unfold get_world at 1.
  destruct (handlers w !! env_id item) as [l|] eqn:Hh.
  - unfold bind at 1. unfold ret at 1. apply Htail.
    destruct (queueTime (record_at w l)) as [qt|] eqn:Hq; [|reflexivity].
    exfalso. apply (Hnot l). split; [exact Hid|]. split; [exact Hm|].
    split; [exact Hh|]. unfold record_at in Hq.
    destruct (heap w !! l) as [r|] eqn:Hl; [|discriminate].
    exists r. split; [reflexivity|]. cbn [has_key]. cbn in Hq.
    now rewrite Hq.
  - unfold bind at 1. unfold bind at 1. unfold new_dict at 1.
    unfold bind at 1. unfold modify at 1. unfold ret at 1.
    apply Htail. unfold record_at. cbn [heap set_handlers set_heap].
    rewrite lookup_app_r by lia. now rewrite Nat.sub_diag.
Qed.

Section WorkerVerdict.

Variable builtin_str : exn -> string.
Variable inherited : string -> bool.
Variable methodFunc : string -> gmap string arg -> M (option string).
Hypothesis methodFunc_well_behaved : well_behaved methodFunc.
Hypothesis methodFunc_leaves_verdict : leaves_verdict methodFunc.

Lemma run_call_known method args w :
  hasattr inherited method = true ->
  run_call inherited methodFunc method args w = methodFunc method args w.
Proof. intros H. unfold run_call. now rewrite H. Qed.

Lemma run_call_leaves_verdict method args w l :
  status (record_at (exec (run_call inherited methodFunc method args) w) l)
  = status (record_at w l)
  /\ error (record_at (exec (run_call inherited methodFunc method args) w) l)
     = error (record_at w l).
Proof.
  unfold run_call. destruct (negb (hasattr inherited method)).
  - split; reflexivity.
  - apply methodFunc_leaves_verdict.
Qed.

Lemma run_call_fails item args w :
  fails inherited methodFunc item ->
  exists e, outcome_of (run_call inherited methodFunc (env_method item) args)
                       w = Raises e.
Proof.
  intros [Hno|Hraise].
  - eexists. unfold outcome_of.
    now rewrite (run_call_unknown inherited methodFunc _ args w Hno).
  - destruct (hasattr inherited (env_method item)) eqn:Hh.
    + destruct (Hraise args w) as [e He]. exists e.
      unfold outcome_of in *. now rewrite run_call_known.
    + eexists. unfold outcome_of.
      now rewrite (run_call_unknown inherited methodFunc _ args w Hh).
Qed.

(** One turn of the loop, seen from the records: the registry is as it was,
    the record of the envelope is the one [run] finished, and every other
    record is as the handler left it. *)
Lemma run_item_records t1 t2 t3 item w l :
  waiting w item l ->
  let args := <["myId" := AStr (env_id item)]> (env_args item) in
  let w1 := exec (run_begin t1 t2 item) w in
  let o := outcome_of (run_call inherited methodFunc (env_method item) args)
                      w1 in
  let w2 := exec (run_call inherited methodFunc (env_method item) args) w1 in
  let w3 := exec (run_item builtin_str inherited methodFunc t1 t2 t3 item)
                 w in
  outcome_of (run_item builtin_str inherited methodFunc t1 t2 t3 item) w
  = Returns tt
  /\ handlers w3 = handlers w
  /\ queues w3 = queues w
  /\ records_kept w w3
  /\ status (record_at w3 l) = Some complete
  /\ error (record_at w3 l)
     = match o with
       | Raises e => Some (str builtin_str e)
       | Returns _ => error (record_at w l)
       end
  /\ (forall l', l' <> l ->
        record_at w3 l' = record_at w2 l'
        /\ status (record_at w3 l') = status (record_at w l')
        /\ error (record_at w3 l') = error (record_at w l')).
Proof.
  intros Hw args w1 o w2 w3.
  destruct (run_item_eq builtin_str inherited methodFunc
              methodFunc_well_behaved t1 t2 t3 item w l Hw)
    as (r2 & pt & Hl2 & Hpt & Hkept & Hq & Hrun).
  fold args w1 o w2 in Hrun, Hl2, Hkept, Hq.
  destruct Hw as (Hid & Hm & Hh & r & Hl & Hqt).
  cbn [has_key] in Hqt. destruct (queueTime r) as [qt|] eqn:Hqt'; [|discriminate].
  pose proof (lookup_lt_Some _ _ _ Hl) as Hlt.
  pose proof (lookup_lt_Some _ _ _ Hl2) as Hlt2.
  assert (Hw1 : w1 = set_heap (<[l := begun t1 t2 qt r]> (heap w)) w).
  { subst w1. unfold exec.
    now rewrite (run_begin_eq t1 t2 item w l r qt Hid Hm Hh Hl Hqt'). }
  assert (Hw3 : w3 = set_heap (<[l := finished builtin_str t3 r2 pt o]>
                                 (heap w2)) w2).
  { subst w3. unfold exec. now rewrite Hrun. }
  assert (Hr3 : record_at w3 l = finished builtin_str t3 r2 pt o).
  { rewrite Hw3. now apply record_at_insert_eq. }
  assert (Hr1 : record_at w1 l = begun t1 t2 qt r).
  { rewrite Hw1. now apply record_at_insert_eq. }
  destruct (run_call_leaves_verdict (env_method item) args w1 l)
    as [_ He2].
  fold w2 in He2. rewrite (record_at_Some _ _ _ Hl2), Hr1 in He2.
  cbn [begun error set_polldata set_data set_queueTime set_processTime
       set_status set_lock] in He2.
  destruct Hkept as [Hh2 Hk2].
  split; [unfold outcome_of; now rewrite Hrun|].
  split; [rewrite Hw3; exact Hh2|].
  split; [rewrite Hw3; exact Hq|].
  split.
  { rewrite Hw3. eapply records_kept_trans; [split; [exact Hh2|exact Hk2]|].
    eapply records_kept_store; [exact Hl2|]. apply keys_kept_finished. }
  split; [rewrite Hr3; reflexivity|].
  split.
  { rewrite Hr3. destruct o as [output|e].
    - rewrite error_finished_returns, He2.
      now rewrite (record_at_Some _ _ _ Hl).
    - reflexivity. }
  intros l' Hne.
  assert (H32 : record_at w3 l' = record_at w2 l').
  { rewrite Hw3. apply record_at_insert_ne. congruence. }
  destruct (run_call_leaves_verdict (env_method item) args w1 l')
    as [Hs He].
  fold w2 in Hs, He.
  assert (H1 : record_at w1 l' = record_at w l').
  { rewrite Hw1. apply record_at_insert_ne. congruence. }
  split; [exact H32|]. rewrite H32, Hs, He, H1. split; reflexivity.
Qed.

(** A turn settles its envelope and leaves settled what was. *)
Lemma run_item_settles t1 t2 t3 item w l :
  waiting w item l ->
  let w3 := exec (run_item builtin_str inherited methodFunc t1 t2 t3 item)
                 w in
  settled inherited methodFunc w3 item
  /\ forall item', settled inherited methodFunc w item' ->
                   settled inherited methodFunc w3 item'.
Proof.
  intros Hw w3.
  destruct (run_item_records t1 t2 t3 item w l Hw)
    as (_ & Hh3 & _ & _ & Hst & Herr & Hother).
  fold w3 in Hh3, Hst, Herr, Hother.
  pose proof Hw as (_ & _ & Hh & _).
  split.
  - exists l. split; [now rewrite Hh3|]. split; [exact Hst|].
    intros Hf. rewrite Herr.
    destruct (run_call_fails item
                (<["myId" := AStr (env_id item)]> (env_args item))
                (exec (run_begin t1 t2 item) w) Hf) as [e ->].
    now eexists.
  - intros item' (l' & Hh' & Hst' & Herr').
    exists l'. split; [now rewrite Hh3|].
    destruct (decide (l' = l)) as [->|Hne].
    + split; [exact Hst|]. intros Hf. rewrite Herr.
      destruct (outcome_of _ _); [now apply Herr'|now eexists].
    + destruct (Hother l' Hne) as (_ & Hs & He).
      rewrite Hs, He. split; assumption.
Qed.

(** The loop settles every envelope it takes. *)
Lemma run_settles_all c (times : list (Z * Z * Z)) :
  forall w done,
    Forall (fun item => exists l, waiting w item l) (queue_of c (queues w)) ->
    Forall (settled inherited methodFunc w) done ->
    Forall (settled inherited methodFunc
              (exec (run builtin_str inherited methodFunc c times) w))
           (done ++ take (length times) (queue_of c (queues w))).
Proof.
  induction times as [|[[t1 t2] t3] times IH]; intros w done Hall Hdone.
  - cbn [length take]. rewrite take_0, app_nil_r. exact Hdone.
  - cbn [run]. unfold exec, queue_get. unfold_py.
    destruct (queue_of c (queues w)) as [|item rest] eqn:Hqueue.
    { cbn [snd]. rewrite take_nil, app_nil_r. exact Hdone. }
    set (wq := set_queues (set_queue c rest (queues w)) w).
    apply Forall_cons in Hall as [[l Hw] Hrest].
    assert (Hkq : records_kept w wq).
    { split; [reflexivity|]. intros l0 r0 H0. exists r0.
      split; [exact H0|apply keys_kept_refl]. }
    pose proof (waiting_kept _ _ _ _ Hkq Hw) as Hwq.
    destruct (run_item_records t1 t2 t3 item wq l Hwq)
      as (Hret & _ & Hq3 & Hk3 & _).
    destruct (run_item_settles t1 t2 t3 item wq l Hwq) as [Hnew Hold].
    unfold outcome_of, exec in *.
    destruct (run_item builtin_str inherited methodFunc t1 t2 t3 item wq)
      as [o3 w3].
    cbn [fst snd] in *. subst o3.
    assert (Hqueue3 : queue_of c (queues w3) = rest).
    { rewrite Hq3. subst wq. cbn [queues set_queues].
      apply queue_of_set_queue_eq. }
    assert (Hall3 : Forall (fun item => exists l, waiting w3 item l)
                           (queue_of c (queues w3))).
    { rewrite Hqueue3. eapply Forall_impl; [exact Hrest|].
      intros it [l' Hl']. exists l'.
      eapply waiting_kept; [|exact Hl'].
      eapply records_kept_trans; [exact Hkq|exact Hk3]. }
    assert (Hdone3 : Forall (settled inherited methodFunc w3)
                            (done ++ [item])).
    { apply Forall_app. split; [|now apply Forall_singleton].
      eapply Forall_impl; [exact Hdone|]. intros it Hit. apply Hold.
      exact Hit. }
    specialize (IH w3 (done ++ [item]) Hall3 Hdone3).
    unfold exec in IH. rewrite Hqueue3 in IH.
    destruct (run builtin_str inherited methodFunc c times w3) as [o4 w4].
    cbn [fst snd length take] in *.
    rewrite <- app_assoc in IH. destruct o4; exact IH.
Qed.

End WorkerVerdict.



Lemma missing_program_well_behaved : well_behaved missing_program.
Proof.
  intros method args w. split; [apply records_kept_refl|reflexivity].
Defined.

Lemma missing_program_leaves_verdict : leaves_verdict missing_program.
Proof. intros method args w l. split; reflexivity. Defined.


(** ** C8: the durations a poll reports *)

(** A poll on a job the worker has started reports the queue wait the
    worker computed and the time elapsed since the worker's start. *)
Lemma poll_in_progress_durations t1 t2 item w l r t0 now :
  str_truthy (env_id item) = true -> str_truthy (env_method item) = true ->
  handlers w !! env_id item = Some l -> heap w !! l = Some r ->
  queueTime r = Some t0 ->
  outcome_of (poll now (env_id item)) (exec (run_begin t1 t2 item) w)
  = Returns (mk_response in_progress "" (t2 - t0)%Z (now - t1)%Z).
Proof.
  intros Hid Hm Hh Hl Hq. unfold exec, outcome_of.
  rewrite (run_begin_eq t1 t2 item w l r t0 Hid Hm Hh Hl Hq). cbn [snd].
  rewrite (poll_running _ now (env_id item) l (begun t1 t2 t0 r) in_progress
             [] [] (t2 - t0)%Z t1); [reflexivity| |discriminate].
  split; try reflexivity; try assumption.
  cbn. apply list_lookup_insert_eq. eapply lookup_lt_Some, Hl.
Qed.

(** Between the two last statements of the worker's turn the record says
    complete while [processTime] still holds the time the job started: a
    poll served there is the terminal one and reports that start time as the
    duration. *)
Lemma poll_between_complete_and_duration builtin_str w id l r pd d qt pt
    output now full :
  started w id l r in_progress pd d qt pt -> error r = None ->
  utf8_valid (join_empty d) = true ->
  decode (join_empty (pd ++ [join_empty d])) = Some full ->
  outcome_of (poll now id)
    (exec (call run_record builtin_str l (Returns output); run_complete l) w)
  = Returns (mk_response complete full qt pt).
Proof.
  intros Hs He Hd Hfull. destruct Hs as [Hh Hl Hst Hlk Hpd Hdd Hqt Hpt].
  pose proof (lookup_lt_Some _ _ _ Hl) as Hlt.
  unfold exec, outcome_of, bind.
  rewrite (run_record_eq builtin_str l r (Returns output) w Hl).
  unfold run_complete, setitem, modify.
  rewrite record_at_insert_eq by assumption.
  cbn [snd heap set_heap]. rewrite set_heap_set_heap, list_insert_insert_eq.
  set (r1 := set_status _ _). set (w1 := set_heap _ w).
  assert (Hrec : forall (A : Type) (f : job -> A),
             (forall v x, f (set_results v x) = f x) ->
             f (recorded builtin_str r (Returns output)) = f r).
  { intros A f H1. unfold recorded. destruct (truthy output);
      [apply H1|reflexivity]. }
  assert (Hs1 : started w1 id l r1 complete pd d qt pt).
  { subst r1 w1. split; try assumption; try reflexivity;
      cbn [heap set_heap status lock polldata data queueTime processTime
           set_status].
    - now apply list_lookup_insert_eq.
    - now rewrite (Hrec _ lock).
    - now rewrite (Hrec _ polldata).
    - now rewrite (Hrec _ data).
    - now rewrite (Hrec _ queueTime).
    - now rewrite (Hrec _ processTime). }
  rewrite (poll_terminal _ now _ _ _ _ _ _ _ _ Hs1 Hd Hfull). cbn [fst].
  unfold terminal_outcome. subst r1. cbn [error set_status].
  rewrite (Hrec _ error) by reflexivity. now rewrite He.
Qed.

(** C8, the code at the failing input.  Job ["abc"] was submitted at time
    100, started at 103 and completed at 120 with the output ["a"].
    - A poll at 110, while it runs, reports the queue wait 4 and the 7
      seconds run so far.
    - A poll after the worker's turn has ended reports the duration 17.
    - A poll served between the statement that sets status complete and the
      statement that computes the duration returns status complete with the
      start time 103 as [processDuration], and deletes the record. *)
Theorem poll_reports_start_time_as_duration :
  outcome_of (poll 110 "abc") w_output_a
  = Returns (mk_response in_progress "a" 4 7)
  /\ outcome_of (poll 130 "abc") w_succeeded
     = Returns (mk_response complete "a" 4 17)
  /\ status (record_at w_between 0) = Some complete
  /\ processTime (record_at w_between 0) = Some 103%Z
  /\ outcome_of (poll 119 "abc") w_between
     = Returns (mk_response complete "a" 4 103)
  /\ handlers (exec (poll 119 "abc") w_between) !! "abc" = None.
Proof. repeat apply conj; vm_compute; reflexivity. Qed.

(** ** The parts of C3 and C4 next to the defects *)

Lemma started_set_closed w c id l r st pd d qt pt :
  started w id l r st pd d qt pt ->
  started (set_closed c w) id l r st pd d qt pt.
Proof. intros [Hh Hl Hst Hlk Hpd Hd Hqt Hpt]. split; assumption. Qed.

(** A command that exits with a non-zero code: [execCommand] raises its
    failure, [run] stores the message, and the terminal poll raises an
    exception with that message. *)
Lemma nonzero_exit_terminal_poll_raises builtin_str command stdout retCode
    w id l r fd pd d qt pt output full t3 now :
  started w id l r in_progress pd d qt pt -> pipe r = Some fd ->
  captured d = Returns output -> retCode <> 0%Z ->
  utf8_valid (join_empty d) = true ->
  decode (join_empty (pd ++ [join_empty d])) = Some full ->
  let message := failure_message command retCode output in
  let w1 := exec (execCommand_finish command l stdout retCode) w in
  let w2 := exec (run_finish builtin_str t3 l (Raises (Exception message)))
                 w1 in
  outcome_of (execCommand_finish command l stdout retCode) w
  = Raises (Exception message)
  /\ error (record_at w2 l) = Some message
  /\ outcome_of (poll now id) w2 = Raises (Exception message).
Proof.
  intros Hs Hp Hc Hne Hd Hfull message w1 w2.
  pose proof (execCommand_finish_eq command l r fd d stdout retCode w
                (started_heap _ _ _ _ _ _ _ _ _ Hs) Hp
                (started_lock _ _ _ _ _ _ _ _ _ Hs)
                (started_data _ _ _ _ _ _ _ _ _ Hs)) as Hf.
  rewrite Hc in Hf. cbn zeta in Hf.
  destruct (decide (retCode = 0%Z)) as [|_]; [contradiction|].
  assert (Hs1 : started w1 id l r in_progress pd d qt pt).
  { subst w1. unfold exec. rewrite Hf. cbn [snd].
    now apply started_set_closed. }
  pose proof (run_finish_eq builtin_str t3 l r pt (Raises (Exception message))
                w1 (started_heap _ _ _ _ _ _ _ _ _ Hs1)
                (started_processTime _ _ _ _ _ _ _ _ _ Hs1)) as Hrun.
  pose proof (started_finished builtin_str t3 (Raises (Exception message))
                _ _ _ _ _ _ _ _ _ Hs1) as Hs2.
  assert (Hw2 : w2 = set_heap
                       (<[l := finished builtin_str t3 r pt
                                        (Raises (Exception message))]>
                          (heap w1)) w1).
  { subst w2. unfold exec. now rewrite Hrun. }
  rewrite <- Hw2 in Hs2.
  split; [unfold outcome_of; now rewrite Hf|]. split.
  - rewrite (record_at_Some _ _ _ (started_heap _ _ _ _ _ _ _ _ _ Hs2)).
    reflexivity.
  - unfold outcome_of.
    rewrite (poll_terminal _ now _ _ _ _ _ _ _ _ Hs2 Hd Hfull).
    reflexivity.
Qed.


(** * More of the server *)

(** ** The caller's address *)

Lemma str_truthy_eqb (s : string) : str_truthy s = negb (String.eqb s "").
Proof. now destruct s. Qed.

Lemma get_remote_ip_explicit header s :
  str_truthy s = true -> s <> two_quotes -> s <> "localhost" ->
  get_remote_ip header (Some s) = s.
Proof.
  intros Hs Hq Hl. unfold get_remote_ip. cbn [truthy]. rewrite Hs.
  rewrite bool_decide_false by congruence. cbn [negb orb]. rewrite Hs.
  cbn [negb orb]. destruct (String.eqb_spec s "localhost");
    [contradiction|reflexivity].
Qed.

Lemma get_remote_ip_header h remoteIP :
  negb (truthy remoteIP) || bool_decide (remoteIP = Some two_quotes) = true ->
  str_truthy h = true -> h <> "localhost" ->
  get_remote_ip (Some h) remoteIP = h.
Proof.
  intros Hc Hh Hl. unfold get_remote_ip. rewrite Hc, Hh. cbn [negb orb].
  destruct (String.eqb_spec h "localhost"); [contradiction|reflexivity].
Qed.

(** The three ways [get_remote_ip] comes to its result. *)
Lemma get_remote_ip_cases header remoteIP :
  get_remote_ip header remoteIP = "127.0.0.1"
  \/ (exists s, remoteIP = Some s /\ str_truthy s = true /\ s <> two_quotes
                 /\ s <> "localhost" /\ get_remote_ip header remoteIP = s)
  \/ (exists h, header = Some h /\ str_truthy h = true /\ h <> "localhost"
                 /\ negb (truthy remoteIP)
                    || bool_decide (remoteIP = Some two_quotes) = true
                 /\ get_remote_ip header remoteIP = h).
Proof.
  destruct (negb (truthy remoteIP)
            || bool_decide (remoteIP = Some two_quotes)) eqn:Hc.
  - destruct header as [h|];
      [|left; unfold get_remote_ip; now rewrite Hc].
    destruct (str_truthy h) eqn:Hh;
      [|left; unfold get_remote_ip; now rewrite Hc, Hh].
    destruct (String.eqb_spec h "localhost") as [->|Hl];
      [left; unfold get_remote_ip; now rewrite Hc|].
    right. right. exists h.
    repeat split; try assumption. now apply get_remote_ip_header.
  - apply orb_false_elim in Hc as [Ht Hq].
    apply bool_decide_eq_false in Hq. apply negb_false_iff in Ht.
    destruct remoteIP as [s|]; [|discriminate Ht]. cbn [truthy] in Ht.
    destruct (String.eqb_spec s "localhost") as [->|Hl].
    + left. reflexivity.
    + right. left. exists s.
      assert (s <> two_quotes) by congruence.
      repeat split; try assumption. now apply get_remote_ip_explicit.
Qed.

(** X1.  The address [get_remote_ip] gives is never empty and never
    ["localhost"].  An address the caller passes, other than the empty text,
    the text of two double quotes and ["localhost"], is returned as it is,
    whatever the header says; and resolving the result again with the same
    header gives the same address. *)
Theorem get_remote_ip_resolves (header remoteIP : option string) :
  let ip := get_remote_ip header remoteIP in
  str_truthy ip = true
  /\ ip <> "localhost"
  /\ (forall s, remoteIP = Some s -> str_truthy s = true ->
                s <> two_quotes -> s <> "localhost" -> ip = s)
  /\ get_remote_ip header (Some ip) = ip.
Proof.
  cbn zeta. split; [|split; [|split]].
  - destruct (get_remote_ip_cases header remoteIP)
      as [->|[(s & _ & Hs & _ & _ & ->)|(h & _ & Hh & _ & _ & ->)]];
      [reflexivity|assumption..].
  - destruct (get_remote_ip_cases header remoteIP)
      as [->|[(s & _ & _ & _ & Hl & ->)|(h & _ & _ & Hl & _ & ->)]];
      [discriminate|assumption..].
  - intros s -> Hs Hq Hl. now apply get_remote_ip_explicit.
  - destruct (get_remote_ip_cases header remoteIP)
      as [->|[(s & _ & Hs & Hq & Hl & ->)|(h & -> & Hh & Hl & _ & ->)]].
    + reflexivity.
    + now apply get_remote_ip_explicit.
    + destruct (decide (h = two_quotes)) as [->|Hq].
      * reflexivity.
      * now apply get_remote_ip_explicit.
Qed.

Lemma get_remote_ip_resolves_witness :
  get_remote_ip (Some "10.0.0.7") (Some "192.168.1.20") = "192.168.1.20"
  /\ get_remote_ip (Some "10.0.0.7") (Some "") = "10.0.0.7"
  /\ get_remote_ip None (Some "localhost") = "127.0.0.1".
Proof.
  split; [|split; reflexivity].
  destruct (get_remote_ip_resolves (Some "10.0.0.7") (Some "192.168.1.20"))
    as (_ & _ & H & _).
  apply (H "192.168.1.20" eq_refl eq_refl); discriminate.
Defined.

(** ** The endpoints *)

Lemma launch_thread_queues_one now id_ method args w name c :
  str_truthy id_ = true -> route method = (name, c) ->
  queues_one (launch_thread now (Some id_) method args) w id_ method args c.
Proof.
  intros Hid Hr. unfold queues_one, outcome_of, exec.
  rewrite (launch_thread_accepts now id_ method args w Hid). cbn [fst snd].
  unfold submitted. rewrite Hr. cbn [queues].
  split; [reflexivity|]. split; [apply queue_of_set_queue_eq|].
  intros c' Hc. now apply queue_of_set_queue_ne.
Qed.

(** X2.  When the caller's address resolves to 127.0.0.1, each of the five
    endpoints that copy files between the two hosts answers that there is
    nothing to do and leaves the server as it is: no record, no envelope,
    and no error either when the request carries no identifier. *)
Theorem local_request_creates_no_job (now : Z)
    (request_id header remoteIP : option string) (project edlfile : string)
    (force : bool) (w : world) :
  get_remote_ip header remoteIP = "127.0.0.1" ->
  App.upload_inputs now request_id header project remoteIP force w
  = (Returns local_request, w)
  /\ App.download_editables now request_id header project remoteIP force w
     = (Returns local_request, w)
  /\ App.download_proxies now request_id header project remoteIP force w
     = (Returns local_request, w)
  /\ App.upload_edl now request_id header project edlfile remoteIP w
     = (Returns local_request, w)
  /\ App.upload_proxy_edl now request_id header project edlfile remoteIP w
     = (Returns local_request, w).
Proof.
  intros H.
  unfold App.upload_inputs, App.download_editables, App.download_proxies,
    App.upload_edl, App.upload_proxy_edl.
  rewrite H. cbn [String.eqb Ascii.eqb Bool.eqb]. repeat split.
Qed.

Lemma local_request_creates_no_job_witness :
  App.upload_inputs 100 None None "demo" (Some "localhost") true initial_world
  = (Returns local_request, initial_world)
  /\ App.upload_edl 100 None (Some "127.0.0.1") "demo" "edl.xges" None
       initial_world
     = (Returns local_request, initial_world).
Proof.
  split.
  - apply (local_request_creates_no_job 100 None None (Some "localhost")
             "demo" "edl.xges" true initial_world eq_refl).
  - apply (local_request_creates_no_job 100 None (Some "127.0.0.1") None
             "demo" "edl.xges" true initial_world eq_refl).
Defined.

(** X3.  A request with an identifier that does not come from 127.0.0.1 is
    queued by every endpoint under the endpoint's own name, with the
    arguments of the call (the address being the resolved one), in the
    category of the operation: the three rsync transfers of media in the
    internal-network queue, the two uploads of an EDL in the local queue,
    conversion, rendering and slideshow in the cpu queue, YouTube and S3 in
    the external-network queue.  Each call adds one envelope and leaves the
    other queues alone. *)
Theorem endpoints_queue_by_category (now : Z) (id_ : string)
    (header remoteIP : option string) (w : world) :
  str_truthy id_ = true ->
  get_remote_ip header remoteIP <> "127.0.0.1" ->
  let ip := get_remote_ip header remoteIP in
  let rid := Some id_ in
  (forall project force,
     queues_one (App.upload_inputs now rid header project remoteIP force)
       w id_ "upload_inputs"
       {[ "project" := AStr project; "remoteIP" := AStr ip;
          "force" := ABool force ]} internal_network_bound
     /\ queues_one (App.download_editables now rid header project remoteIP
                      force)
          w id_ "download_editables"
          {[ "project" := AStr project; "remoteIP" := AStr ip;
             "force" := ABool force ]} internal_network_bound
     /\ queues_one (App.download_proxies now rid header project remoteIP
                      force)
          w id_ "download_proxies"
          {[ "project" := AStr project; "remoteIP" := AStr ip;
             "force" := ABool force ]} internal_network_bound)
  /\ (forall project edlfile,
        queues_one (App.upload_edl now rid header project edlfile remoteIP)
          w id_ "upload_edl"
          {[ "project" := AStr project; "edlfile" := AStr edlfile;
             "remoteIP" := AStr ip ]} local
        /\ queues_one (App.upload_proxy_edl now rid header project edlfile
                         remoteIP)
             w id_ "upload_proxy_edl"
             {[ "project" := AStr project; "edlfile" := AStr edlfile;
                "remoteIP" := AStr ip ]} local)
  /\ (forall project files factor edlfile outfile proxy mode duration slides,
        (exists args, queues_one
                        (App.convert_inputs now rid project files factor)
                        w id_ "convert_inputs" args cpu_bound)
        /\ (exists args, queues_one
                           (App.render_edl now rid project edlfile outfile
                              proxy mode)
                           w id_ "render_edl" args cpu_bound)
        /\ (exists args, queues_one
                           (App.make_slideshow now rid project duration
                              outfile slides)
                           w id_ "make_slideshow" args cpu_bound))
  /\ (forall project outfile title description category keywords
             skip inputs delete accelerate,
        (exists args, queues_one
                        (App.upload_to_youtube now rid project outfile title
                           description category keywords)
                        w id_ "upload_to_youtube" args
                        external_network_bound)
        /\ (exists args, queues_one
                           (App.archive_to_s3 now rid project skip inputs
                              delete accelerate)
                           w id_ "archive_to_s3" args
                           external_network_bound)).
Proof.
  intros Hid Hne ip rid.
  assert (Heq : String.eqb ip "127.0.0.1" = false).
  { destruct (String.eqb_spec ip "127.0.0.1"); [contradiction|reflexivity]. }
  split; [|split; [|split]].
  - intros project force.
    unfold App.upload_inputs, App.download_editables, App.download_proxies.
    fold ip. rewrite Heq.
    split; [|split];
      apply (launch_thread_queues_one _ _ _ _ _ "internal-network-bound");
      try assumption; reflexivity.
  - intros project edlfile. unfold App.upload_edl, App.upload_proxy_edl.
    fold ip. rewrite Heq.
    split; apply (launch_thread_queues_one _ _ _ _ _ "local");
      try assumption; reflexivity.
  - intros. unfold App.convert_inputs, App.render_edl, App.make_slideshow.
    split; [|split]; eexists;
      apply (launch_thread_queues_one _ _ _ _ _ "cpu-bound");
      try assumption; reflexivity.
  - intros. unfold App.upload_to_youtube, App.archive_to_s3.
    split; eexists;
      apply (launch_thread_queues_one _ _ _ _ _ "external-network-bound");
      try assumption; reflexivity.
Qed.

Lemma endpoints_queue_by_category_witness :
  queues_one (App.download_proxies 100 (Some "abc") (Some "10.0.0.7") "demo"
                None true)
    initial_world "abc" "download_proxies"
    {[ "project" := AStr "demo"; "remoteIP" := AStr "10.0.0.7";
       "force" := ABool true ]} internal_network_bound.
Proof.
  assert (Hne : get_remote_ip (Some "10.0.0.7") None <> "127.0.0.1")
    by (vm_compute; discriminate).
  destruct (endpoints_queue_by_category 100 "abc" (Some "10.0.0.7") None
              initial_world eq_refl Hne) as (H & _).
  destruct (H "demo" true) as (_ & _ & H3). exact H3.
Defined.

(** ** Routing and order *)

(** X4.  Every operation [queueMap] routes is a method of [HandlerThread]
    and is routed to the queue the table names, which is one of the four
    queues: for such an operation the worker's attribute test passes and
    [run] calls the method, it never reports a missing handler. *)
Theorem routed_operation_has_handler (inherited : string -> bool)
    (methodFunc : string -> gmap string arg -> M (option string))
    (method name : string) :
  (method, name) ∈ queueMap ->
  hasattr inherited method = true
  /\ (forall args w,
        run_call inherited methodFunc method args w = methodFunc method args w)
  /\ exists c, route method = (name, c) /\ queues_get name = Some c.
Proof.
  intros Hin.
  assert (Hm : method ∈ HandlerThread_methods).
  { unfold queueMap in Hin.
    repeat (apply elem_of_cons in Hin as [[= -> ->]|Hin];
            [unfold HandlerThread_methods; set_solver|]).
    now apply elem_of_nil in Hin. }
  assert (Hh : hasattr inherited method = true).
  { unfold hasattr. now rewrite bool_decide_true. }
  split; [exact Hh|]. split.
  - intros args w. unfold run_call. now rewrite Hh.
  - unfold queueMap in Hin.
    repeat (apply elem_of_cons in Hin as [[= -> ->]|Hin];
            [eexists; split; vm_compute; reflexivity|]).
    now apply elem_of_nil in Hin.
Qed.

Lemma routed_operation_has_handler_witness :
  hasattr (fun _ => false) "render_edl" = true
  /\ exists c, route "render_edl" = ("cpu-bound", c).
Proof.
  assert (Hin : ("render_edl", "cpu-bound") ∈ queueMap)
    by (vm_compute; repeat constructor).
  destruct (routed_operation_has_handler (fun _ => false) missing_program
              "render_edl" "cpu-bound" Hin) as (H1 & _ & c & H3 & _).
  split; [exact H1|]. exists c. exact H3.
Defined.

Lemma launch_all_queue (c : category) (reqs : list request) :
  forall w,
    Forall (fun r => str_truthy (req_id r) = true
                     /\ snd (route (req_method r)) = c) reqs ->
    outcome_of (launch_all reqs) w = Returns tt
    /\ queue_of c (queues (exec (launch_all reqs) w))
       = queue_of c (queues w) ++ map envelope_of reqs.
Proof.
  induction reqs as [|r rest IH]; intros w Hall.
  - cbn. now rewrite app_nil_r.
  - apply Forall_cons in Hall as [[Hid Hc] Hrest].
    cbn [launch_all map]. unfold outcome_of, exec, bind.
    rewrite (launch_thread_accepts _ _ _ _ w Hid).
    destruct (IH (submitted (req_now r) (req_id r) (req_method r)
                            (req_args r) w) Hrest) as [Ho Hq].
    unfold outcome_of, exec in Ho, Hq.
    split; [exact Ho|]. rewrite Hq. unfold submitted.
    destruct (route (req_method r)) as [name c0]. cbn [snd] in Hc. subst c0.
    cbn [queues]. rewrite queue_of_set_queue_eq, <- app_assoc. reflexivity.
Qed.

Lemma take_envelopes_all (c : category) (q : list envelope) :
  forall w, queue_of c (queues w) = q ->
    outcome_of (take_envelopes c (length q)) w = Returns q
    /\ queue_of c (queues (exec (take_envelopes c (length q)) w)) = [].
Proof.
  induction q as [|item rest IH]; intros w Hq.
  - cbn. now split.
  - cbn [length take_envelopes]. unfold outcome_of, exec, queue_get.
    unfold_py. rewrite Hq.
    set (w1 := set_queues (set_queue c rest (queues w)) w).
    destruct (IH w1) as [Ho Hq'].
    { subst w1. cbn [queues set_queues]. apply queue_of_set_queue_eq. }
    unfold outcome_of, exec in Ho, Hq'.
    destruct (take_envelopes c (length rest) w1) as [o w2].
    cbn [fst snd] in *. subst o. split; [reflexivity|exact Hq'].
Qed.

(** X5.  The queues are first in, first out.  After any number of accepted
    submits to one category the queue holds what it held followed by the new
    envelopes in the order of the submits, and the worker's successive
    [queue.get()] calls hand them over in that order, the older envelopes
    first, and leave the queue empty. *)
Theorem queue_is_fifo (c : category) (reqs : list request) (w : world) :
  Forall (fun r => str_truthy (req_id r) = true
                   /\ snd (route (req_method r)) = c) reqs ->
  let w' := exec (launch_all reqs) w in
  let n := length (queue_of c (queues w) ++ map envelope_of reqs) in
  outcome_of (launch_all reqs) w = Returns tt
  /\ outcome_of (take_envelopes c n) w'
     = Returns (queue_of c (queues w) ++ map envelope_of reqs)
  /\ queue_of c (queues (exec (take_envelopes c n) w')) = [].
Proof.
  intros Hall w' n. destruct (launch_all_queue c reqs w Hall) as [Ho Hq].
  split; [exact Ho|]. subst n. fold w' in Hq.
  exact (take_envelopes_all c _ w' Hq).
Qed.

Lemma queue_is_fifo_witness :
  outcome_of (take_envelopes cpu_bound 2)
    (exec (launch_all [mk_request 100 "first" "render_edl" ∅;
                       mk_request 101 "second" "convert_inputs" ∅])
          initial_world)
  = Returns [mk_envelope "render_edl" ∅ "first";
             mk_envelope "convert_inputs" ∅ "second"].
Proof.
  assert (Hall : Forall (fun r => str_truthy (req_id r) = true
                                  /\ snd (route (req_method r)) = cpu_bound)
                        [mk_request 100 "first" "render_edl" ∅;
                         mk_request 101 "second" "convert_inputs" ∅]).
  { repeat constructor. }
  destruct (queue_is_fifo cpu_bound _ initial_world Hall) as (_ & H & _).
  exact H.
Defined.

(** ** A poll touches one job *)

Lemma touches_only_refl l id w : touches_only l id w w.
Proof. repeat split. Qed.

Lemma touches_only_trans l id w1 w2 w3 :
  touches_only l id w1 w2 -> touches_only l id w2 w3 ->
  touches_only l id w1 w3.
Proof.
  intros (A1 & A2 & A3 & A4 & A5 & A6 & A7) (B1 & B2 & B3 & B4 & B5 & B6 & B7).
  repeat split; try congruence.
  - intros id' H. rewrite B6, A6 by assumption. reflexivity.
  - intros l' H. rewrite B7, A7 by assumption. reflexivity.
Qed.

Lemma keeps_ret {A} l id (a : A) : keeps (touches_only l id) (ret a).
Proof. intros w. apply touches_only_refl. Qed.

Lemma keeps_raise {A} l id e : keeps (touches_only l id) (@raise A e).
Proof. intros w. apply touches_only_refl. Qed.

Lemma keeps_bind {A B} l id (m : M A) (k : A -> M B) :
  keeps (touches_only l id) m -> (forall a, keeps (touches_only l id) (k a)) ->
  keeps (touches_only l id) (bind m k).
Proof.
  intros Hm Hk w. unfold bind. specialize (Hm w).
  destruct (m w) as [[a|e] w1]; cbn [snd] in *; [|exact Hm].
  eapply touches_only_trans; [exact Hm|apply Hk].
Qed.

Lemma keeps_getitem {A} l id l0 key (proj : job -> option A) :
  keeps (touches_only l id) (getitem l0 key proj).
Proof.
  intros w. unfold getitem. destruct (proj (record_at w l0));
    apply touches_only_refl.
Qed.

Lemma keeps_getitem_lock l id l0 : keeps (touches_only l id) (getitem_lock l0).
Proof.
  intros w. unfold getitem_lock. destruct (lock (record_at w l0));
    apply touches_only_refl.
Qed.

Lemma keeps_decode_utf8 l id bs : keeps (touches_only l id) (decode_utf8 bs).
Proof.
  intros w. unfold decode_utf8. destruct (decode bs); apply touches_only_refl.
Qed.

Lemma keeps_setitem l id f : keeps (touches_only (Some l) id) (setitem l f).
Proof.
  intros w. unfold setitem, modify. cbn [snd].
  repeat split; cbn [heap set_heap].
  - apply length_insert.
  - intros l' Hl'. apply record_at_insert_ne. congruence.
Qed.

Lemma keeps_delete l id :
  keeps (touches_only l id)
        (modify (fun w => set_handlers (delete id (handlers w)) w)).
Proof.
  intros w. unfold modify. cbn [snd]. repeat split.
  intros id' Hne. cbn. now apply lookup_delete_ne.
Qed.

(** X6.  A poll, however it ends, leaves alone the queues, the workers, the
    multiplexer, the streams, the registry entries of the other identifiers
    and every record but the one registered under the polled identifier;
    it creates no record. *)
Theorem poll_touches_one_job (now : Z) (id : string) (w : world) :
  touches_only (handlers w !! id) id w (exec (poll now id) w).
Proof.
  unfold exec, poll. unfold bind at 1. unfold get_world at 1.
  destruct (handlers w !! id) as [l|]; [|apply touches_only_refl].
  cbv beta iota. revert w.
  match goal with
  | |- forall w, touches_only _ _ w (snd (?m w)) =>
    change (keeps (touches_only (Some l) id) m)
  end.
  repeat first
    [ apply keeps_bind; [|intros ?]
    | apply keeps_getitem | apply keeps_getitem_lock | apply keeps_setitem
    | apply keeps_decode_utf8 | apply keeps_delete | apply keeps_ret
    | apply keeps_raise
    | match goal with
      | |- keeps _ (if ?c then _ else _) => destruct c
      | |- keeps _ (match ?c with _ => _ end) => destruct c
      end ].
  intros w. unfold get_world. apply touches_only_refl.
Qed.

(** ** Output that is not UTF-8 *)

(** X7.  A completed job whose buffered bytes, all joined, are not
    well-formed UTF-8 is never delivered: every poll raises
    [UnicodeDecodeError] before it reaches the deletion, so the record stays
    in the registry for good and neither the output nor a stored error is
    ever handed to the client. *)
Theorem undecodable_output_is_never_delivered (id : string) (l : loc)
    (qt pt : Z) (nows : list Z) :
  forall (w : world) (r : job) (pd d : list bytes),
    started w id l r complete pd d qt pt ->
    utf8_valid (join_empty pd ++ join_empty d) = false ->
    forallb is_decode_error (fst (polls id nows w)) = true
    /\ handlers (snd (polls id nows w)) !! id = Some l
    /\ status (record_at (snd (polls id nows w)) l) = Some complete.
Proof.
  induction nows as [|now rest IH]; intros w r pd d Hs Hbad.
  - cbn. split; [reflexivity|]. split; [apply Hs|].
    rewrite (record_at_Some _ _ _ (started_heap _ _ _ _ _ _ _ _ _ Hs)).
    apply Hs.
  - cbn [polls]. rewrite (poll_started _ now _ _ _ _ _ _ _ _ Hs).
    pose proof (started_drained _ _ _ _ _ _ _ _ _ Hs) as Hs1.
    assert (Hbad1 : utf8_valid (join_empty (pd ++ [join_empty d])
                                  ++ join_empty []) = false).
    { rewrite join_empty_snoc. cbn. now rewrite app_nil_r. }
    specialize (IH _ _ _ _ Hs1 Hbad1).
    assert (Hstep : exists bs,
               poll_started_result w now id l r complete pd d qt pt
               = (Raises (UnicodeDecodeError bs),
                  set_heap (<[l := drained r pd d]> (heap w)) w)).
    { unfold poll_started_result.
      destruct (decode (join_empty d)); [|now eexists].
      destruct (decide (complete = complete)) as [_|]; [|congruence].
      unfold decode. rewrite join_empty_snoc, Hbad. now eexists. }
    destruct Hstep as [bs ->].
    destruct (polls id rest _) as [os w2]. cbn [fst snd forallb] in *.
    exact IH.
Qed.

Lemma started_binary :
  started w_binary "abc" 0 (record_at w_binary 0) complete [] [[xff]%byte]
          4 17.
Proof. split; vm_compute; reflexivity. Defined.

Lemma undecodable_output_is_never_delivered_witness :
  forallb is_decode_error (fst (polls "abc" [130; 131; 132]%Z w_binary))
  = true
  /\ handlers (snd (polls "abc" [130; 131; 132]%Z w_binary)) !! "abc"
     = Some 0%nat.
Proof.
  destruct (undecodable_output_is_never_delivered "abc" 0 4 17
              [130; 131; 132]%Z w_binary _ _ _ started_binary eq_refl)
    as (H1 & H2 & _).
  split; [exact H1|exact H2].
Defined.

(** ** Witnesses for the durations and the failing command *)

Lemma poll_in_progress_durations_witness :
  outcome_of (poll 110 "abc")
    (exec (run_begin 103 104
             (mk_envelope "archive_to_s3" {[ "project" := AStr "demo" ]}
                          "abc"))
          w_submitted)
  = Returns (mk_response in_progress "" 4 7).
Proof.
  assert (Hh : handlers w_submitted !! "abc" = Some 0%nat)
    by (vm_compute; reflexivity).
  assert (Hl : heap w_submitted !! 0%nat = Some (queued_record 100))
    by (vm_compute; reflexivity).
  exact (poll_in_progress_durations 103 104
           (mk_envelope "archive_to_s3" {[ "project" := AStr "demo" ]} "abc")
           w_submitted 0 (queued_record 100) 100 110 eq_refl eq_refl Hh Hl
           eq_refl).
Defined.

Lemma nonzero_exit_terminal_poll_raises_witness :
  outcome_of (execCommand_finish archive_command 0 5 2) w_output_a
  = Raises (Exception (failure_message archive_command 2 (Some "a")))
  /\ outcome_of (poll 130 "abc")
       (exec (run_finish example_builtin_str 120 0
                (Raises (Exception
                           (failure_message archive_command 2 (Some "a")))))
             (exec (execCommand_finish archive_command 0 5 2) w_output_a))
     = Raises (Exception (failure_message archive_command 2 (Some "a"))).
Proof.
  assert (Hp : pipe (record_at w_output_a 0) = Some 5%nat)
    by (vm_compute; reflexivity).
  assert (Hne : 2%Z <> 0%Z) by discriminate.
  assert (Hd : utf8_valid (join_empty [bytes_of "a"]) = true)
    by (vm_compute; reflexivity).
  assert (Hfull : decode (join_empty ([] ++ [join_empty [bytes_of "a"]]))
                  = Some "a") by (vm_compute; reflexivity).
  assert (Hc : captured [bytes_of "a"] = Returns (Some "a"))
    by (vm_compute; reflexivity).
  destruct (nonzero_exit_terminal_poll_raises example_builtin_str
              archive_command 5 2 w_output_a "abc" 0 _ 5 [] [bytes_of "a"]
              4 103 (Some "a") "a" 120 130 started_output_a Hp Hc Hne Hd Hfull)
    as (H1 & _ & H3).
  split; [exact H1|exact H3].
Defined.

(** ** The multiplexer at end of stream and on failures *)

Lemma remove_registered w ot fd :
  outputThread w = Some ot -> is_Some (idMap ot !! fd) -> fd ∈ sel ot ->
  remove fd w
  = (Returns tt,
     set_closed ({[fd]} ∪ closed w)
       (set_outputThread (Some (without_stream fd ot)) w)).
Proof.
  intros Hot Hfd Hsel. unfold remove, sel_unregister. unfold_py. rewrite Hot.
  destruct (decide (fd ∈ dom (idMap ot))) as [_|Hn];
    [|now apply elem_of_dom in Hfd].
  py_run ltac:(rewrite ?Hot).
  destruct (decide (fd ∈ sel ot)); [reflexivity|contradiction].
Qed.

(** X8.  At end of stream (an empty read) on a stream [fd] that [idMap]
    maps to a job, the multiplexer tears down the pipe recorded in the job
    at that moment, [fd'], not the stream it was called for: [fd'] leaves
    [idMap] and the selector and is closed, no record changes and the thread
    goes on.  When the record still holds [fd] that is the stream itself;
    when a second command has been started under the same identifier since
    (two envelopes under one identifier, each run by the worker of its
    category), the pipe of the second command is closed instead and [fd]
    stays registered and open. *)
Theorem read_eof_removes_current_pipe (w : world) (ot : output_thread)
    (id : string) (l : loc) (r : job) (fd fd' : stream) :
  outputThread w = Some ot -> idMap ot !! fd = Some id -> fd ∉ closed w ->
  handlers w !! id = Some l -> heap w !! l = Some r -> pipe r = Some fd' ->
  is_Some (idMap ot !! fd') -> fd' ∈ sel ot ->
  let w' := exec (OutputThread_run fd []) w in
  OutputThread_run fd [] w
  = (Returns tt,
     set_closed ({[fd']} ∪ closed w)
       (set_outputThread (Some (without_stream fd' ot)) w))
  /\ heap w' = heap w
  /\ fd' ∈ closed w'
  /\ (fd' <> fd ->
      (fd ∉ closed w')
      /\ exists ot', outputThread w' = Some ot'
                     /\ idMap ot' !! fd = Some id
                     /\ (fd ∈ sel ot -> fd ∈ sel ot')).
Proof.
  intros Hot Hid Hopen Hh Hl Hp Hfd' Hsel'.
  pose proof (record_at_Some _ _ _ Hl) as Hr.
  assert (Hrun : OutputThread_run fd [] w
                 = (Returns tt,
                    set_closed ({[fd']} ∪ closed w)
                      (set_outputThread (Some (without_stream fd' ot)) w))).
  { unfold OutputThread_run, try_except, read. unfold_py.
    destruct (decide (fd ∈ closed w)) as [|_]; [contradiction|].
    rewrite Hot, Hid.
    unfold removeId. unfold_py. rewrite Hh, Hr, Hp.
    now rewrite (remove_registered w ot fd' Hot Hfd' Hsel'). }
  cbn zeta. unfold exec. rewrite Hrun. cbn [snd].
  split; [reflexivity|]. split; [reflexivity|]. split.
  - cbn. apply elem_of_union_l, elem_of_singleton. reflexivity.
  - intros Hne. split.
    + cbn. intros [Heq%elem_of_singleton|Hin]%elem_of_union;
        [congruence|contradiction].
    + eexists. split; [reflexivity|]. split.
      * cbn. rewrite lookup_delete_ne by assumption. exact Hid.
      * intros Hin. cbn. apply elem_of_difference. split; [exact Hin|].
        intros Heq%elem_of_singleton. congruence.
Qed.

(** X9.  A read the multiplexer cannot place ends the multiplexer thread.
    For a stream that is not in [idMap], whatever was read, [read] raises
    [KeyError]; for a stream that is closed already it raises [ValueError].
    In both cases the exception leaves [run], the thread is dead from then
    on, no record has changed and the bytes read are in none of them. *)
Theorem unplaced_read_ends_multiplexer (w : world) (ot : output_thread)
    (fd : stream) (chunk : bytes) :
  outputThread w = Some ot ->
  (fd ∉ closed w -> idMap ot !! fd = None ->
   OutputThread_run fd chunk w
   = (Raises (KeyError KNone),
      set_outputThread (Some (set_is_alive false ot)) w))
  /\ (fd ∈ closed w ->
      OutputThread_run fd chunk w
      = (Raises (ValueError fd),
         set_outputThread (Some (set_is_alive false ot)) w)).
Proof.
  intros Hot. split.
  - intros Hopen Hid. unfold OutputThread_run, try_except, read. unfold_py.
    destruct (decide (fd ∈ closed w)) as [|_]; [contradiction|].
    rewrite Hot, Hid. cbn [mbind option_bind].
    unfold removeId. unfold_py.
    destruct chunk; now rewrite Hot.
  - intros Hcl. unfold OutputThread_run, try_except, read. unfold_py.
    destruct (decide (fd ∈ closed w)) as [_|]; [|contradiction].
    now rewrite Hot.
Qed.

Lemma read_eof_removes_current_pipe_witness :
  OutputThread_run 5 [] w_spawned
  = (Returns tt, exec (OutputThread_run 5 []) w_spawned)
  /\ outputThread (exec (OutputThread_run 5 []) w_spawned)
     = Some (mk_output_thread ∅ ∅ true)
  /\ (5%nat ∉ closed (exec (OutputThread_run 5 []) w_two_pipes))
  /\ 6%nat ∈ closed (exec (OutputThread_run 5 []) w_two_pipes).
Proof.
  assert (H1 : outputThread w_spawned
               = Some (mk_output_thread {[5%nat := "abc"]} {[5%nat]} true))
    by (vm_compute; reflexivity).
  assert (H2 : outputThread w_two_pipes
               = Some (mk_output_thread {[5%nat := "abc"; 6%nat := "abc"]}
                                        {[5%nat; 6%nat]} true))
    by (vm_compute; reflexivity).
  destruct (read_eof_removes_current_pipe w_spawned _ "abc" 0
              (record_at w_spawned 0) 5 5 H1) as (Ha & _);
    [vm_compute; reflexivity|by_compute|vm_compute; reflexivity..
    |by_compute|by_compute|].
  destruct (read_eof_removes_current_pipe w_two_pipes _ "abc" 0
              (record_at w_two_pipes 0) 5 6 H2) as (_ & _ & Hb & Hc);
    [vm_compute; reflexivity|by_compute|vm_compute; reflexivity..
    |by_compute|by_compute|].
  split; [|split; [|split]].
  - rewrite Ha. reflexivity.
  - vm_compute. reflexivity.
  - apply Hc. discriminate.
  - exact Hb.
Defined.

Lemma unplaced_read_ends_multiplexer_witness :
  outcome_of (OutputThread_run 9 (bytes_of "x")) w_spawned
  = Raises (KeyError KNone)
  /\ is_alive <$> outputThread (exec (OutputThread_run 9 (bytes_of "x"))
                                     w_spawned)
     = Some false.
Proof.
  destruct (unplaced_read_ends_multiplexer w_spawned
              (mk_output_thread {[5%nat := "abc"]} {[5%nat]} true) 9
              (bytes_of "x")) as (H & _); [vm_compute; reflexivity|].
  assert (Hopen : 9%nat ∉ closed w_spawned) by by_compute.
  assert (Hid : ({[5%nat := "abc"]} : gmap stream string) !! 9%nat = None)
    by (vm_compute; reflexivity).
  unfold outcome_of, exec. rewrite (H Hopen Hid). split; reflexivity.
Defined.

(** X10.  While a command of job [id] runs, a new submit under the same
    identifier binds the identifier to a record without lock; the next
    bytes the multiplexer reads from the command's pipe are looked up
    through the identifier, the subscription ['lock'] of the new record
    raises [KeyError], and the multiplexer thread ends.  The bytes are in no
    record. *)
Theorem resubmit_ends_multiplexer (w : world) (id : string) (l : loc)
    (r : job) (st : status_t) (pd d : list bytes) (qt pt : Z) (fd : stream)
    (now : Z) (method : string) (args : gmap string arg) (c0 : byte)
    (cs : bytes) :
  started w id l r st pd d qt pt -> piped w fd id ->
  let w1 := exec (launch_thread now (Some id) method args) w in
  let w2 := exec (OutputThread_run fd (c0 :: cs)) w1 in
  outcome_of (OutputThread_run fd (c0 :: cs)) w1
  = Raises (KeyError (KStr "lock"))
  /\ is_alive <$> outputThread w2 = Some false
  /\ heap w2 = heap w1
  /\ data (record_at w2 l) = Some d.
Proof.
  intros Hs [(ot & Hot & Hid) Hopen Htr] w1 w2.
  assert (Hw1 : w1 = submitted now id method args w).
  { subst w1. unfold exec.
    now rewrite (launch_thread_accepts now id method args w Htr). }
  assert (Hh1 : handlers w1 !! id = Some (length (heap w))).
  { rewrite Hw1, handlers_submitted. apply lookup_insert_eq. }
  assert (Hr1 : record_at w1 (length (heap w)) = queued_record now).
  { rewrite Hw1. apply record_at_submitted_new. }
  assert (Hot1 : outputThread w1 = Some ot).
  { rewrite Hw1. unfold submitted. now destruct (route method). }
  assert (Hcl1 : closed w1 = closed w).
  { rewrite Hw1. unfold submitted. now destruct (route method). }
  assert (Hrun : OutputThread_run fd (c0 :: cs) w1
                 = (Raises (KeyError (KStr "lock")),
                    set_outputThread (Some (set_is_alive false ot)) w1)).
  { unfold OutputThread_run, try_except, read. unfold_py. rewrite Hcl1.
    destruct (decide (fd ∈ closed w)) as [|_]; [contradiction|].
    rewrite Hot1, Hid. unfold mbind, option_bind. cbv beta iota.
    unfold loc, stream in *. rewrite Hh1, Htr, Hr1.
    cbn [andb dict_truthy queued_record set_queueTime set_status status
         empty_job has orb].
    unfold_py. rewrite Hr1. cbn [lock queued_record set_queueTime set_status
                                  empty_job].
    unfold_py. now rewrite Hot1. }
  subst w2. unfold outcome_of, exec. rewrite Hrun. cbn [fst snd].
  split; [reflexivity|]. split; [reflexivity|]. split; [reflexivity|].
  rewrite record_at_set_outputThread, Hw1.
  rewrite (record_at_submitted_old _ _ _ _ _ _ _
             (started_heap _ _ _ _ _ _ _ _ _ Hs)).
  apply Hs.
Qed.

Lemma resubmit_ends_multiplexer_witness :
  outcome_of (OutputThread_run 5 (bytes_of "b"))
    (exec (launch_thread 105 (Some "abc") "render_edl" ∅) w_output_a)
  = Raises (KeyError (KStr "lock")).
Proof.
  assert (Hp : piped w_output_a 5 "abc").
  { split.
    - eexists. split; vm_compute; reflexivity.
    - intros H. vm_compute in H. discriminate H.
    - reflexivity. }
  destruct (resubmit_ends_multiplexer w_output_a "abc" 0 _ _ _ _ _ _ 5 105
              "render_edl" ∅ "b"%byte [] started_output_a Hp) as (H & _).
  exact H.
Defined.

(** ** Starting and ending a command *)



Lemma streams_grow_refl w : streams_grow w w.
Proof.
  unfold streams_grow. split; [reflexivity|]. split; [set_solver|].
  repeat split.
Qed.

Lemma streams_grow_trans w1 w2 w3 :
  streams_grow w1 w2 -> streams_grow w2 w3 -> streams_grow w1 w3.
Proof.
  intros (A1 & A2 & A3 & A4 & A5) (B1 & B2 & B3 & B4 & B5).
  split; [congruence|]. split; [exact (transitivity A2 B2)|].
  split; [congruence|]. split; [congruence|].
  intros l. destruct (A5 l) as (a1 & a2 & a3 & a4).
  destruct (B5 l) as (b1 & b2 & b3 & b4).
  repeat split; congruence.
Qed.

Lemma grows_bind {A B} (m : M A) (k : A -> M B) :
  keeps streams_grow m -> (forall a, keeps streams_grow (k a)) ->
  keeps streams_grow (bind m k).
Proof.
  intros Hm Hk w. unfold bind. specialize (Hm w).
  destruct (m w) as [[a|e] w1]; cbn [snd] in *; [|exact Hm].
  eapply streams_grow_trans; [exact Hm|apply Hk].
Qed.

Lemma grows_close fd : keeps streams_grow (close fd).
Proof.
  intros w. unfold close, modify. cbn [snd]. unfold streams_grow.
  cbn [outputThread closed handlers queues set_closed].
  split; [reflexivity|]. split; [set_solver|]. repeat split.
Qed.

Lemma grows_getitem {A} l key (proj : job -> option A) :
  keeps streams_grow (getitem l key proj).
Proof.
  intros w. unfold getitem. destruct (proj (record_at w l));
    apply streams_grow_refl.
Qed.

Lemma grows_getitem_lock l : keeps streams_grow (getitem_lock l).
Proof.
  intros w. unfold getitem_lock. destruct (lock (record_at w l));
    apply streams_grow_refl.
Qed.

Lemma grows_decode_utf8 bs : keeps streams_grow (decode_utf8 bs).
Proof.
  intros w. unfold decode_utf8. destruct (decode bs); apply streams_grow_refl.
Qed.

Lemma grows_set_result l v : keeps streams_grow (setitem l (set_result v)).
Proof.
  intros w. unfold setitem, modify. cbn [snd]. unfold streams_grow.
  cbn [outputThread closed handlers queues set_heap].
  split; [reflexivity|]. split; [set_solver|].
  do 2 (split; [reflexivity|]). intros l'.
  destruct (decide (l = l')) as [<-|Hne].
  - destruct (decide (l < length (heap w))%nat) as [Hlt|Hge].
    + rewrite record_at_insert_eq by assumption. repeat split.
    + unfold record_at. cbn [heap set_heap].
      rewrite list_insert_ge by lia. repeat split.
  - rewrite record_at_insert_ne by assumption. repeat split.
Qed.

Lemma closed_after_bind {A B} (m : M A) (k : A -> M B) (fd : stream) :
  (forall w, fd ∈ closed (snd (m w))) ->
  (forall a, keeps streams_grow (k a)) ->
  forall w, fd ∈ closed (snd (bind m k w)).
Proof.
  intros Hm Hk w. unfold bind. specialize (Hm w).
  destruct (m w) as [[a|e] w1]; cbn [snd] in *; [|exact Hm].
  destruct (Hk a w1) as (_ & Hsub & _). set_solver.
Qed.

Lemma grows_execCommand_rest (command : list string) (handler : loc)
    (retCode : Z) :
  keeps streams_grow
    (do fd <- getitem handler "pipe" pipe;
     call close fd;
     call getitem_lock handler;
     do d <- getitem handler "data" data;
     do output <- match d with
                  | [] => ret None
                  | _ :: _ => do s <- decode_utf8 (join_space d); ret (Some s)
                  end;
     if decide (retCode = 0%Z)
     then setitem handler (set_result (Some output))
     else raise (Exception (failure_message command retCode output))).
Proof.
  apply grows_bind; [apply grows_getitem|intros fd].
  apply grows_bind; [apply grows_close|intros _].
  apply grows_bind; [apply grows_getitem_lock|intros _].
  apply grows_bind; [apply grows_getitem|intros d].
  apply grows_bind.
  - destruct d; [intros w; apply streams_grow_refl|].
    apply grows_bind; [apply grows_decode_utf8|].
    intros s w. apply streams_grow_refl.
  - intros output. case_decide; [apply grows_set_result|].
    intros w. apply streams_grow_refl.
Qed.

(** X12.  The end of [execCommand], however it ends (the result stored, the
    failure raised, or an exception on the way), closes the child's pipe and
    does nothing to the multiplexer: the pipe stays in [idMap] and in the
    selector, and only the multiplexer itself, at the end of the stream, ever
    takes a pipe out.  The registry, the queues, and the status, the error
    and the buffered output of every record are as they were. *)
Theorem execCommand_finish_keeps_registration (command : list string)
    (handler : loc) (stdout : stream) (retCode : Z) (w : world) :
  let w' := exec (execCommand_finish command handler stdout retCode) w in
  stdout ∈ closed w' /\ streams_grow w w'.
Proof.
  unfold exec, execCommand_finish. split.
  - apply closed_after_bind.
    + intros w0. unfold close, modify. cbn. set_solver.
    + intros _. apply grows_execCommand_rest.
  - apply (grows_bind (close stdout)); [apply grows_close|].
    intros _. apply grows_execCommand_rest.
Qed.

(** ** A record that is run a second time *)

(** X13.  Two envelopes under one identifier share the record the
    identifier is bound to, and [run] starts the second on the record the
    first has finished.  The start of the turn resets the status to
    in-progress and empties [data] and [polldata], whatever output was
    waiting for a poll; it takes the queue duration the first turn stored
    for a submit time; and it does not clear [error].  So when the first
    handler failed and the second returns normally, the terminal poll
    raises the failure of the first. *)
Theorem second_turn_reports_first_error (builtin_str : exn -> string)
    (t1 t2 t3 now : Z) (item : envelope) (w : world) (l : loc) (r : job)
    (qt : Z) (msg : string) (output : option string) :
  str_truthy (env_id item) = true -> str_truthy (env_method item) = true ->
  handlers w !! env_id item = Some l -> heap w !! l = Some r ->
  queueTime r = Some qt -> error r = Some msg ->
  let w1 := exec (run_begin t1 t2 item) w in
  let w2 := exec (run_finish builtin_str t3 l (Returns output)) w1 in
  status (record_at w1 l) = Some in_progress
  /\ data (record_at w1 l) = Some []
  /\ polldata (record_at w1 l) = Some []
  /\ queueTime (record_at w1 l) = Some (t2 - qt)%Z
  /\ error (record_at w2 l) = Some msg
  /\ outcome_of (poll now (env_id item)) w2 = Raises (Exception msg).
Proof.
  intros Hid Hm Hh Hl Hq He w1 w2.
  pose proof (lookup_lt_Some _ _ _ Hl) as Hlt.
  pose proof (run_begin_eq t1 t2 item w l r qt Hid Hm Hh Hl Hq) as Hb.
  assert (Hw1 : w1 = set_heap (<[l := begun t1 t2 qt r]> (heap w)) w).
  { subst w1. unfold exec. now rewrite Hb. }
  assert (Hr1 : record_at w1 l = begun t1 t2 qt r).
  { rewrite Hw1. now apply record_at_insert_eq. }
  assert (Hs1 : started w1 (env_id item) l (begun t1 t2 qt r) in_progress
                        [] [] (t2 - qt)%Z t1).
  { rewrite Hw1. split; try reflexivity.
    - exact Hh.
    - cbn. now apply list_lookup_insert_eq. }
  pose proof (run_finish_eq builtin_str t3 l _ t1 (Returns output) w1
                (started_heap _ _ _ _ _ _ _ _ _ Hs1) eq_refl) as Hf.
  pose proof (started_finished builtin_str t3 (Returns output)
                _ _ _ _ _ _ _ _ _ Hs1) as Hs2.
  assert (Hw2 : w2 = set_heap
                       (<[l := finished builtin_str t3 (begun t1 t2 qt r) t1
                                        (Returns output)]> (heap w1)) w1).
  { subst w2. unfold exec. now rewrite Hf. }
  rewrite <- Hw2 in Hs2.
  assert (He2 : error (finished builtin_str t3 (begun t1 t2 qt r) t1
                                (Returns output)) = Some msg).
  { rewrite error_finished_returns. exact He. }
  rewrite Hr1. do 4 (split; [reflexivity|]). split.
  - rewrite (record_at_Some _ _ _ (started_heap _ _ _ _ _ _ _ _ _ Hs2)).
    exact He2.
  - unfold outcome_of.
    rewrite (poll_terminal _ now _ _ _ _ _ _ _ "" Hs2 eq_refl eq_refl).
    unfold terminal_outcome. now rewrite He2.
Qed.

Lemma second_turn_reports_first_error_witness :
  let item := mk_envelope "archive_to_s3" ∅ "abc" in
  let w1 := exec (run_begin 131 132 item) w_first_of_two_failed in
  let w2 := exec (run_finish example_builtin_str 140 1
                    (Returns (Some "done"))) w1 in
  queue_of external_network_bound (queues w_first_of_two_failed) = [item]
  /\ status (record_at w_first_of_two_failed 1) = Some complete
  /\ results (record_at w2 1) = Some "done"
  /\ outcome_of (poll 150 "abc") w2
     = Raises (Exception
                 "[Errno 2] No such file or directory: 'archive_to_s3.py'").
Proof.
  intros item w1 w2.
  destruct (second_turn_reports_first_error example_builtin_str 131 132 140
              150 item w_first_of_two_failed 1
              (record_at w_first_of_two_failed 1) 3
              "[Errno 2] No such file or directory: 'archive_to_s3.py'"
              (Some "done"))
    as (_ & _ & _ & _ & _ & Hp); try (vm_compute; reflexivity).
  split; [vm_compute; reflexivity|]. split; [vm_compute; reflexivity|].
  split; [vm_compute; reflexivity|]. exact Hp.
Defined.

(** ** Endpoints and handlers agree on the arguments *)

Lemma all_envelopes_put (P : envelope -> Prop) c e q :
  Forall P (all_envelopes q) -> P e ->
  Forall P (all_envelopes (set_queue c (queue_of c q ++ [e]) q)).
Proof.
  unfold all_envelopes. rewrite !Forall_app. intros (H1 & H2 & H3 & H4) He.
  destruct c; cbn; rewrite ?Forall_app; repeat split; try assumption;
    now apply Forall_singleton.
Qed.

Lemma all_envelopes_queue_of (P : envelope -> Prop) c q :
  Forall P (all_envelopes q) -> Forall P (queue_of c q).
Proof.
  unfold all_envelopes. rewrite !Forall_app. intros (H1 & H2 & H3 & H4).
  destruct c; assumption.
Qed.

Lemma all_envelopes_take (P : envelope -> Prop) c e rest q :
  queue_of c q = e :: rest ->
  Forall P (all_envelopes q) ->
  Forall P (all_envelopes (set_queue c rest q)).
Proof.
  unfold all_envelopes. rewrite !Forall_app. intros Hq (H1 & H2 & H3 & H4).
  destruct c; cbn in *; rewrite ?Forall_app; rewrite Hq in *;
    repeat split; try assumption;
    match goal with H : Forall P (_ :: _) |- _ =>
      now apply Forall_cons in H as [_ ?] end.
Qed.

Lemma launch_thread_bindable now rid method args w :
  (forall id_, bindable_item (mk_envelope method args id_) = true) ->
  bindable w -> bindable (exec (launch_thread now rid method args) w).
Proof.
  intros Hitem Hw. destruct rid as [id_|]; [|exact Hw].
  destruct (str_truthy id_) eqn:Hid.
  - unfold exec. rewrite (launch_thread_accepts now id_ method args w Hid).
    cbn [snd]. unfold bindable, submitted.
    destruct (route method) as [name c]. cbn [queues].
    apply all_envelopes_put; [exact Hw|apply Hitem].
  - destruct id_; [exact Hw|discriminate].
Qed.

(** X14.  The envelopes on the queues always bind to their handlers.  No
    envelope waits when the module is loaded; whatever the request, each of
    the ten endpoints leaves on the queues only envelopes whose operation is
    a handler, whose arguments, with [myId] added by [run], are all
    parameters of that handler and give every parameter that has no
    default; and what [queue.get()] hands to a worker is such an envelope.
    So the call of [methodFunc] in [run] is never refused for its
    arguments. *)
Theorem endpoints_submit_what_handlers_accept :
  bindable initial_world
  /\ (forall now rid header remoteIP w, bindable w ->
        (forall project force,
           bindable (exec (App.upload_inputs now rid header project remoteIP
                             force) w)
           /\ bindable (exec (App.download_editables now rid header project
                                remoteIP force) w)
           /\ bindable (exec (App.download_proxies now rid header project
                                remoteIP force) w))
        /\ (forall project edlfile,
              bindable (exec (App.upload_edl now rid header project edlfile
                                remoteIP) w)
              /\ bindable (exec (App.upload_proxy_edl now rid header project
                                   edlfile remoteIP) w))
        /\ (forall project files factor edlfile outfile proxy mode duration
                   slides,
              bindable (exec (App.convert_inputs now rid project files
                                factor) w)
              /\ bindable (exec (App.render_edl now rid project edlfile
                                   outfile proxy mode) w)
              /\ bindable (exec (App.make_slideshow now rid project duration
                                   outfile slides) w))
        /\ (forall project outfile title description category keywords
                   skip inputs delete accelerate,
              bindable (exec (App.upload_to_youtube now rid project outfile
                                title description category keywords) w)
              /\ bindable (exec (App.archive_to_s3 now rid project skip
                                   inputs delete accelerate) w)))
  /\ (forall c w item,
        bindable w -> outcome_of (queue_get c) w = Returns (Some item) ->
        bindable_item item = true /\ bindable (exec (queue_get c) w)).
Proof.
  split; [apply Forall_nil_2|]. split.
  - intros now rid header remoteIP w Hw.
    split; [|split; [|split]].
    + intros project force.
      unfold App.upload_inputs, App.download_editables, App.download_proxies.
      destruct (String.eqb (get_remote_ip header remoteIP) "127.0.0.1");
        [repeat split; exact Hw|].
      repeat split; (apply launch_thread_bindable; [|exact Hw]);
        intros id_; vm_compute; reflexivity.
    + intros project edlfile. unfold App.upload_edl, App.upload_proxy_edl.
      destruct (String.eqb (get_remote_ip header remoteIP) "127.0.0.1");
        [repeat split; exact Hw|].
      repeat split; (apply launch_thread_bindable; [|exact Hw]);
        intros id_; vm_compute; reflexivity.
    + intros. unfold App.convert_inputs, App.render_edl, App.make_slideshow.
      repeat split; (apply launch_thread_bindable; [|exact Hw]);
        intros id_; vm_compute; reflexivity.
    + intros. unfold App.upload_to_youtube, App.archive_to_s3.
      repeat split; (apply launch_thread_bindable; [|exact Hw]);
        intros id_; vm_compute; reflexivity.
  - intros c w item Hw. unfold outcome_of, exec, queue_get. unfold_py.
    destruct (queue_of c (queues w)) as [|e rest] eqn:Hq; [discriminate|].
    cbn [fst snd]. intros [= <-].
    pose proof (all_envelopes_queue_of _ c _ Hw) as Hc. rewrite Hq in Hc.
    apply Forall_cons in Hc as [He _]. split; [exact He|].
    unfold bindable. cbn [queues set_queues].
    eapply all_envelopes_take; [exact Hq|exact Hw].
Qed.

(** ** The paths and commands of the handlers *)

Lemma append_assoc (a b c : string) : (a +:+ b) +:+ c = a +:+ (b +:+ c).
Proof.
  induction a as [|x a IH]; [reflexivity|].
  change (String x ((a +:+ b) +:+ c) = String x (a +:+ (b +:+ c))).
  now f_equal.
Qed.

Lemma append_empty_r (a : string) : a +:+ "" = a.
Proof.
  induction a as [|x a IH]; [reflexivity|].
  change (String x (a +:+ "") = String x a). now f_equal.
Qed.

Lemma endswith_sep_append (a b : string) :
  str_truthy b = true -> endswith_sep (a +:+ b) = endswith_sep b.
Proof.
  intros Hb. induction a as [|x a IH]; [reflexivity|].
  change (String x a +:+ b) with (String x (a +:+ b)).
  cbn [endswith_sep]. rewrite IH.
  destruct (a +:+ b) eqn:E; [|reflexivity].
  destruct a, b; discriminate.
Qed.

Lemma str_truthy_append_r (a b : string) :
  str_truthy b = true -> str_truthy (a +:+ b) = true.
Proof. destruct a; [trivial|reflexivity]. Qed.

Lemma join_component_absolute path b :
  startswith_sep b = true -> join_component path b = b.
Proof. intros H. unfold join_component. now rewrite H. Qed.

Lemma os_path_join_last_absolute a (p : list string) b :
  startswith_sep b = true -> os_path_join a (p ++ [b]) = b.
Proof.
  intros Hb. unfold os_path_join. rewrite fold_left_app. cbn [fold_left].
  now apply join_component_absolute.
Qed.

(** A component that does not begin with a slash, joined to a path that is
    not empty and does not end with one. *)
Lemma join_component_after_name path b :
  str_truthy path = true -> endswith_sep path = false ->
  startswith_sep b = false ->
  join_component path b = path +:+ "/" +:+ b.
Proof.
  intros Ht He Hb. unfold join_component. now rewrite Hb, Ht, He.
Qed.

(** The video root, the project and a directory of the project, joined. *)
Lemma os_path_join_project (project name : string) :
  str_truthy name = true -> startswith_sep name = false ->
  endswith_sep name = false ->
  let joined := os_path_join Handler.video [project; name] in
  joined = video_root project +:+ project +:+ slash_after project +:+ name
  /\ str_truthy joined = true
  /\ endswith_sep joined = false.
Proof.
  intros Hn Hs He joined.
  assert (Hjoined : joined = video_root project +:+ project
                             +:+ slash_after project +:+ name).
  { subst joined. cbn [os_path_join fold_left].
    unfold video_root, slash_after.
    destruct (startswith_sep project) eqn:Hp.
    - rewrite (join_component_absolute _ _ Hp).
      assert (Ht : str_truthy project = true) by now destruct project.
      unfold join_component. rewrite Hs, Ht. cbn [negb orb].
      destruct (endswith_sep project); reflexivity.
    - assert (H1 : join_component Handler.video project
                   = "/opt/video/render/video/" +:+ project).
      { unfold join_component. rewrite Hp. reflexivity. }
      rewrite H1. unfold join_component. rewrite Hs.
      assert (Ht : str_truthy ("/opt/video/render/video/" +:+ project)
                   = true) by reflexivity.
      rewrite Ht. cbn [negb orb].
      assert (Hend : endswith_sep ("/opt/video/render/video/" +:+ project)
                     = negb (str_truthy project) || endswith_sep project).
      { change ("/opt/video/render/video/" +:+ project)
          with ("/opt/video/render/video" +:+ (String "/" project)).
        rewrite endswith_sep_append by reflexivity.
        destruct project; reflexivity. }
      rewrite Hend.
      destruct (negb (str_truthy project) || endswith_sep project);
        now rewrite append_assoc. }
  split; [exact Hjoined|]. rewrite Hjoined.
  split.
  - rewrite <- !append_assoc. now apply str_truthy_append_r.
  - rewrite <- !append_assoc. now rewrite endswith_sep_append.
Qed.

(** X15.  The three handlers that copy a directory give rsync the same
    directory on both sides, the server's side bare and the caller's side
    behind the caller's address: [upload_inputs] reads from the caller,
    [download_proxies] and [download_editables] write to the caller;
    [--delete] comes right after [-avt] when [force] is set and nowhere
    otherwise.  The directory is the text made of the video root (left out
    when the project begins with a slash), the project as it was given,
    whatever it holds, a slash unless the project is empty or ends with one,
    the name of the directory and a slash. *)
Theorem directory_handlers_commands (project : string)
    (remoteIP : option string) (force : bool) :
  let options := if force then ["rsync"; "-avt"; "--delete"]
                 else ["rsync"; "-avt"] in
  let there path := percent_s remoteIP +:+ ":" +:+ path in
  let directory name :=
    video_root project +:+ project +:+ slash_after project +:+ name
      +:+ "/" in
  Handler.upload_inputs project remoteIP force
  = options ++ [there (directory "input"); directory "input"]
  /\ Handler.download_proxies project remoteIP force
     = options ++ [directory "proxy"; there (directory "proxy")]
  /\ Handler.download_editables project remoteIP force
     = options ++ [directory "edit"; there (directory "edit")]
  /\ forall name, endswith_sep (directory name) = true.
Proof.
  intros options there directory.
  assert (Hdir : forall name,
             str_truthy name = true -> startswith_sep name = false ->
             endswith_sep name = false ->
             os_path_join Handler.video [project; name; ""]
             = directory name).
  { intros name Hn Hs He.
    destruct (os_path_join_project project name Hn Hs He)
      as (Hj & Ht & Hend).
    change (os_path_join Handler.video [project; name; ""])
      with (join_component (os_path_join Handler.video [project; name]) "").
    rewrite (join_component_after_name _ "" Ht Hend eq_refl), Hj.
    unfold directory. rewrite !append_assoc. reflexivity. }
  split; [|split; [|split]].
  - unfold Handler.upload_inputs. rewrite (Hdir "input") by reflexivity.
    destruct force; reflexivity.
  - unfold Handler.download_proxies. rewrite (Hdir "proxy") by reflexivity.
    destruct force; reflexivity.
  - unfold Handler.download_editables. rewrite (Hdir "edit") by reflexivity.
    destruct force; reflexivity.
  - intros name. unfold directory. rewrite <- !append_assoc.
    now rewrite endswith_sep_append.
Qed.

Lemma directory_handlers_commands_witness :
  Handler.upload_inputs "demo" (Some "10.0.0.7") true
  = ["rsync"; "-avt"; "--delete";
     "10.0.0.7:/opt/video/render/video/demo/input/";
     "/opt/video/render/video/demo/input/"]
  /\ Handler.download_proxies "../../../../home" (Some "10.0.0.7") false
     = ["rsync"; "-avt";
        "/opt/video/render/video/../../../../home/proxy/";
        "10.0.0.7:/opt/video/render/video/../../../../home/proxy/"].
Proof.
  destruct (directory_handlers_commands "demo" (Some "10.0.0.7") true)
    as (H1 & _).
  destruct (directory_handlers_commands "../../../../home"
              (Some "10.0.0.7") false) as (_ & H2 & _).
  split; [exact H1|exact H2].
Defined.

(** X16.  The file name of an EDL is joined to the directory with
    [os.path.join], which starts over at a component that begins with a
    slash.  So when [edlfile] begins with a slash, [upload_edl] and
    [upload_proxy_edl] have rsync write the caller's file to the path
    [edlfile] itself, whatever the project.  Otherwise the target is the
    text made of the video root (left out when the project begins with a
    slash), the project as it was given, a slash unless the project is empty
    or ends with one, the directory [edit] or [proxy], a slash and [edlfile]
    as it was given, whatever the two hold. *)
Theorem edl_path_starts_over_at_absolute_name (project edlfile : string)
    (remoteIP : option string) :
  let there path := percent_s remoteIP +:+ ":" +:+ path in
  let target name :=
    video_root project +:+ project +:+ slash_after project +:+ name
      +:+ "/" +:+ edlfile in
  (startswith_sep edlfile = true ->
   Handler.upload_edl project edlfile remoteIP
   = ["rsync"; "-avt"; there edlfile; edlfile]
   /\ Handler.upload_proxy_edl project edlfile remoteIP
      = ["rsync"; "-avt"; there edlfile; edlfile])
  /\ (startswith_sep edlfile = false ->
      Handler.upload_edl project edlfile remoteIP
      = ["rsync"; "-avt"; there (target "edit"); target "edit"]
      /\ Handler.upload_proxy_edl project edlfile remoteIP
         = ["rsync"; "-avt"; there (target "proxy"); target "proxy"]).
Proof.
  intros there target. split.
  - intros Habs. unfold Handler.upload_edl, Handler.upload_proxy_edl.
    rewrite (os_path_join_last_absolute _ [project; "edit"] _ Habs).
    rewrite (os_path_join_last_absolute _ [project; "proxy"] _ Habs).
    split; reflexivity.
  - intros Hrel.
    assert (Hfile : forall name,
               str_truthy name = true -> startswith_sep name = false ->
               endswith_sep name = false ->
               os_path_join Handler.video [project; name; edlfile]
               = target name).
    { intros name Hn Hs He.
      destruct (os_path_join_project project name Hn Hs He)
        as (Hj & Ht & Hend).
      change (os_path_join Handler.video [project; name; edlfile])
        with (join_component (os_path_join Handler.video [project; name])
                             edlfile).
      rewrite (join_component_after_name _ edlfile Ht Hend Hrel), Hj.
      unfold target. rewrite !append_assoc. reflexivity. }
    unfold Handler.upload_edl, Handler.upload_proxy_edl.
    rewrite (Hfile "edit"), (Hfile "proxy") by reflexivity.
    split; reflexivity.
Qed.

Lemma edl_path_starts_over_at_absolute_name_witness :
  Handler.upload_edl "demo" "/etc/cron.d/job" (Some "10.0.0.7")
  = ["rsync"; "-avt"; "10.0.0.7:/etc/cron.d/job"; "/etc/cron.d/job"]
  /\ Handler.upload_edl "demo" "../../../../../../etc/cron.d/job"
       (Some "10.0.0.7")
     = ["rsync"; "-avt";
        "10.0.0.7:/opt/video/render/video/demo/edit/../../../../../../etc/cron.d/job";
        "/opt/video/render/video/demo/edit/../../../../../../etc/cron.d/job"].
Proof.
  destruct (edl_path_starts_over_at_absolute_name "demo" "/etc/cron.d/job"
              (Some "10.0.0.7")) as (H & _).
  destruct (H eq_refl) as (H1 & _).
  destruct (edl_path_starts_over_at_absolute_name "demo"
              "../../../../../../etc/cron.d/job" (Some "10.0.0.7"))
    as (_ & H').
  destruct (H' eq_refl) as (H2 & _).
  split; [exact H1|exact H2].
Defined.

(** * The client *)

(** X17.  Under each of the five names [upload_inputs], [convert_inputs],
    [download_proxies], [upload_proxy_edl] and [render_edl] the client
    builds its parser without a conflict between option strings, finds every
    name of [params] in the parsed namespace, and calls the endpoint of its
    own name with keyword arguments the endpoint accepts, the one without a
    default, [project], among them.  Under any other name it exits with
    code 1.  The inclusions of [parameters] nest no deeper than two calls. *)
Theorem client_calls_an_endpoint (n : nat) (progname : string) :
  match Client.main (2 + n) progname with
  | Client.SysExit code => code = 1%Z /\ progname ∉ Client.services
  | Client.Raised _ => False
  | Client.Calls method keys =>
    method = progname /\ progname ∈ Client.services
    /\ exists sig, lookup_item method endpoint_parameters = Some sig
                   /\ binds sig (list_to_set keys) = true
  end.
Proof.
  assert (Hin : forall s, s ∈ Client.services ->
                          Client.main (2 + n) s
                          = Client.Calls s
                              (default [] (Client.params
                                 (default (Client.mk_service None None [])
                                    (lookup_item s Client.parameters))))
                            /\ exists sig,
                                lookup_item s endpoint_parameters = Some sig
                                /\ binds sig
                                     (list_to_set
                                        (default [] (Client.params
                                           (default
                                              (Client.mk_service None None [])
                                              (lookup_item s
                                                 Client.parameters)))))
                                   = true).
  { intros s Hs. unfold Client.services in Hs.
    repeat (apply elem_of_cons in Hs as [->|Hs]);
      [..|now apply elem_of_nil in Hs];
      (split; [vm_compute; reflexivity|]);
      eexists; (split; [reflexivity|vm_compute; reflexivity]). }
  destruct (decide (progname ∈ Client.services)) as [Hs|Hs].
  - destruct (Hin _ Hs) as (-> & sig & Hsig & Hb).
    split; [reflexivity|]. split; [exact Hs|]. exists sig. split; assumption.
  - assert (Hout : Client.main (2 + n) progname = Client.SysExit 1).
    { unfold Client.main.
      destruct (String.eqb_spec progname "rpcclient.py"); [reflexivity|].
      destruct (String.eqb_spec progname "common"); [reflexivity|].
      cbn [orb]. unfold Client.parameters. cbn [lookup_item].
      destruct (String.eqb_spec progname "common"); [contradiction|].
      unfold Client.services in Hs.
      repeat match goal with
             | |- context [String.eqb progname ?s] =>
               destruct (String.eqb_spec progname s);
                 [subst; exfalso; apply Hs; by_compute|]
             end.
      reflexivity. }
    rewrite Hout. split; [reflexivity|exact Hs].
Qed.
